(** * Retail Analytics Copilot: the orchestration core, embedded and verified

    A shallow embedding of the Python sources

      - [agent/rag/retrieval.py]      (module [Retrieval])
      - [agent/tools/sqlite_tool.py]  (module [SqliteTool])
      - [agent/graph_hybrid.py]       (module [GraphHybrid])
      - [rag_agent_hybrid.py]         (module [RagAgentHybrid])

    followed by the properties of the specification that were checked
    against them.  Python [str] values are modelled as [string] (a
    character is a code point below 256), Python [int] as [Z] or, for
    positions produced by [enumerate] and [argsort], as [nat].  The
    float scores of the retriever are only ever compared, never
    computed with, so a score is carried as the rational it denotes.

    Library calls whose behaviour the sources depend on but do not
    contain are parameters: the fitted vectorizer and NumPy's
    [argsort] for the retriever, the store for the query tool, the
    language-model modules and [json.dumps] for the workflow, and
    [json.loads] for the batch driver.  Where such a call can raise,
    the parameter says so. *)

From Stdlib Require Import List String Ascii Bool Arith ZArith QArith Lia.
From Stdlib Require Import Sorted Permutation DecimalString.
Import ListNotations.

Local Close Scope Q_scope.
Local Open Scope string_scope.
Local Open Scope list_scope.
Local Open Scope nat_scope.

(* ================================================================= *)
(** ** Python built-ins used by the sources *)

Module Py.

(** [str.isspace] on one character, for code points below 256:
    TAB..CR, FS..US, SPACE, NEL and NBSP. *)
Definition isspace (c : ascii) : bool :=
  let n := nat_of_ascii c in
  ((9 <=? n) && (n <=? 13)) || ((28 <=? n) && (n <=? 32))
  || (n =? 133) || (n =? 160).

(** [s.lstrip()] *)
Fixpoint lstrip (s : string) : string :=
  match s with
  | EmptyString => EmptyString
  | String c s' => if isspace c then lstrip s' else s
  end.

(** [s.rstrip()] *)
Fixpoint rstrip (s : string) : string :=
  match s with
  | EmptyString => EmptyString
  | String c s' =>
      match rstrip s' with
      | EmptyString => if isspace c then EmptyString else String c EmptyString
      | r => String c r
      end
  end.

(** [s.strip()] *)
Definition strip (s : string) : string := rstrip (lstrip s).

(** Truth value of a [str]: the empty string is falsy. *)
Definition truthy (s : string) : bool :=
  match s with EmptyString => false | _ => true end.

(** [sep.join(l)] *)
Definition join (sep : string) (l : list string) : string :=
  String.concat sep l.

(** [s.endswith(suffix)] *)
Definition endswith (s suffix : string) : bool :=
  let n := String.length s in
  let m := String.length suffix in
  (m <=? n) && String.eqb (substring (n - m) m s) suffix.

(** [str(n)] for a non-negative [int]. *)
Definition str_of_nat (n : nat) : string :=
  NilEmpty.string_of_uint (Nat.to_uint n).

(** [enumerate(l)] *)
Fixpoint enumerate_from {A : Type} (i : nat) (l : list A) : list (nat * A) :=
  match l with
  | [] => []
  | x :: l' => (i, x) :: enumerate_from (S i) l'
  end.

Definition enumerate {A : Type} (l : list A) : list (nat * A) :=
  enumerate_from 0 l.

(** [a[start:]] for a sequence of length [n]: a negative [start]
    counts from the end, and both ends are clipped to the sequence. *)
Definition slice_from {A : Type} (start : Z) (l : list A) : list A :=
  let n := Z.of_nat (List.length l) in
  let lo := if (start <? 0)%Z then Z.max (start + n) 0 else Z.min start n in
  skipn (Z.to_nat lo) l.

(** A list of optional values, all of which must be present. *)
Fixpoint sequence {A : Type} (l : list (option A)) : option (list A) :=
  match l with
  | [] => Some []
  | None :: _ => None
  | Some x :: l' =>
      match sequence l' with
      | Some xs => Some (x :: xs)
      | None => None
      end
  end.

End Py.

(* ================================================================= *)
(** ** agent/rag/retrieval.py *)

Module Retrieval.

Definition newline : ascii := "010"%char.

Definition is_newline (c : ascii) : bool := Ascii.eqb c newline.

(** Prepend a character to the piece that is being read. *)
Definition push (c : ascii) (pieces : list string) : list string :=
  match pieces with
  | [] => [String c EmptyString]
  | p :: ps => String c p :: ps
  end.

(** [re.split(r'\n\n+', content)], scanning left to right.  A line
    break followed by another one opens a separator, which then
    swallows every line break that follows (the [+] is greedy);
    [in_sep] says that the scan is inside such a separator.  The
    result always has one more piece than there are separators, so a
    separator at either end of the text leaves an empty piece there. *)
Fixpoint re_split (in_sep : bool) (content : string) : list string :=
  match content with
  | EmptyString => [EmptyString]
  | String c rest =>
      if is_newline c then
        if in_sep then re_split true rest
        else
          match rest with
          | String c' _ =>
              if is_newline c' then EmptyString :: re_split true rest
              else push c (re_split false rest)
          | EmptyString => push c (re_split false rest)
          end
      else push c (re_split false rest)
  end.

Definition split_paragraphs (content : string) : list string :=
  re_split false content.

(** One entry of [self.chunks]. *)
Record Chunk : Type := mkChunk {
  content : string;
  source : string;
  chunk_id : nat
}.

(** What [search] reads of the fitted scikit-learn objects: for a
    query, the flattened row
    [cosine_similarity(vectorizer.transform([query]), tfidf_matrix)],
    one score per row of the matrix. *)
Record Tfidf : Type := mkTfidf {
  cosine_similarity : string -> list Q
}.

Record LocalRetriever : Type := mkRetriever {
  chunks : list Chunk;
  tfidf_matrix : option Tfidf
}.

(** [LocalRetriever()] *)
Definition init : LocalRetriever :=
  {| chunks := []; tfidf_matrix := None |}.

(** The chunks one call of [_split_into_chunks] appends. *)
Definition paragraph_chunks (text filename : string) : list Chunk :=
  flat_map
    (fun '(i, para) =>
       if Py.truthy (Py.strip para)
       then [ {| content := Py.strip para; source := filename; chunk_id := i |} ]
       else [])
    (Py.enumerate (split_paragraphs text)).

Definition _split_into_chunks
    (self : LocalRetriever) (text filename : string) : LocalRetriever :=
  {| chunks := chunks self ++ paragraph_chunks text filename;
     tfidf_matrix := tfidf_matrix self |}.

(** How a call of [index_directory] ends: it returns, or the fit
    raises and the exception leaves the method.  Either way [self] is
    the retriever as the call leaves it. *)
Inductive Indexing : Type :=
| Indexed (self : LocalRetriever)
| FitRaised (self : LocalRetriever).

Definition retriever_after (r : Indexing) : LocalRetriever :=
  match r with
  | Indexed self => self
  | FitRaised self => self
  end.

(** [index_directory]: [files] is what the directory walk yields, as
    pairs of a file name and the text read from it, in walk order.
    [fit_transform] stands for [self.vectorizer.fit_transform]: the
    fitted model, or [None] when it raises (with [min_df=2] and
    [max_df=0.85] the vectorizer raises [ValueError] when no term is
    left, as on every corpus of one or two chunks).  The chunks are
    appended before the fit, so they stay when it raises, and the
    matrix is assigned only when it returns. *)
Definition index_directory
    (fit_transform : list string -> option Tfidf)
    (self : LocalRetriever) (files : list (string * string)) : Indexing :=
  let self' :=
    fold_left
      (fun r '(file, text) =>
         if Py.endswith file ".md" then _split_into_chunks r text file else r)
      files self in
  match chunks self' with
  | [] => Indexed self'
  | _ :: _ =>
      match fit_transform (map content (chunks self')) with
      | Some tfidf =>
          Indexed {| chunks := chunks self'; tfidf_matrix := Some tfidf |}
      | None => FitRaised self'
      end
  end.

(** One entry of the list [search] returns. *)
Record SearchResult : Type := mkResult {
  score : Q;
  chunk : Chunk
}.

(** [{'score': cosine_similarities[i], 'chunk': self.chunks[i]}]; an
    index outside either sequence raises [IndexError] ([None]). *)
Definition result_at
    (cosine_similarities : list Q) (cs : list Chunk) (i : nat)
    : option SearchResult :=
  match nth_error cosine_similarities i, nth_error cs i with
  | Some s, Some c => Some {| score := s; chunk := c |}
  | _, _ => None
  end.

(** [search(query, k)]; [None] stands for an exception.  [argsort]
    stands for [np.argsort] with its default kind: it lists the
    positions of the scores in ascending order of score, in an order
    among equal scores that NumPy does not fix. *)
Definition search
    (argsort : list Q -> list nat)
    (self : LocalRetriever) (query : string) (k : Z)
    : option (list SearchResult) :=
  match tfidf_matrix self, chunks self with
  | None, _ => Some []
  | Some _, [] => Some []
  | Some tfidf, _ :: _ =>
      let cosine_similarities := cosine_similarity tfidf query in
      let top_k_indices :=
        rev (Py.slice_from (- k) (argsort cosine_similarities)) in
      Py.sequence
        (map (result_at cosine_similarities (chunks self)) top_k_indices)
  end.

End Retrieval.


(* ================================================================= *)
(** ** agent/tools/sqlite_tool.py *)

Module SqliteTool.

(** A value of a result row, as the [sqlite3] module hands it out:
    [None], [int], [float] (kept as its 64 bits), [str] or [bytes]. *)
Inductive SqlValue : Type :=
| SqlNull
| SqlInteger (z : Z)
| SqlReal (bits : Z)
| SqlText (s : string)
| SqlBlob (b : list ascii).

(** A row is a tuple of values. *)
Definition SqlRow : Type := list SqlValue.

(** What the store does with one query inside the [try] block: the
    statement runs, [cursor.fetchall()] gives the rows and
    [cursor.description] is [None] or one entry per column (carried
    by its first component, the column name); or [sqlite3.Error] is
    raised, [str_e] being [str(e)]. *)
Inductive CursorOutcome : Type :=
| Executed (fetchall : list SqlRow) (description : option (list string))
| SqliteError (str_e : string).

Definition Store : Type := string -> CursorOutcome.

(** The first component of the returned pair: rows, or the message. *)
Inductive RowsOrMessage : Type :=
| Rows (rows : list SqlRow)
| Message (text : string).

Definition run_sqlite_query (store : Store) (query : string)
    : RowsOrMessage * option (list string) :=
  match store query with
  | Executed rows description =>
      let column_names :=
        match description with
        | Some (d :: ds) => d :: ds
        | Some [] => []
        | None => []
        end in
      (Rows rows, Some column_names)
  | SqliteError e => (Message e, None)
  end.

End SqliteTool.

(* ================================================================= *)
(** ** agent/graph_hybrid.py *)

Module GraphHybrid.

Import Retrieval SqliteTool.

(** A result row as a [dict] from column name to value, in insertion
    order. *)
Definition RowDict : Type := list (string * SqlValue).

(** [d[k] = v] *)
Fixpoint dict_set (k : string) (v : SqlValue) (d : RowDict) : RowDict :=
  match d with
  | [] => [(k, v)]
  | (k', v') :: d' =>
      if String.eqb k k' then (k, v) :: d' else (k', v') :: dict_set k v d'
  end.

(** [dict(zip(column_names, row))] *)
Definition dict_zip (column_names : list string) (row : SqlRow) : RowDict :=
  fold_left (fun d '(k, v) => dict_set k v d) (combine column_names row) [].

Record AgentState : Type := mkState {
  question : string;
  format_hint : option string;
  classification : option string;
  sql_query : option string;
  sql_results : option (list RowDict);
  retrieved_docs : option (list string);
  errors : list string;
  retry_count : Z;
  final_answer : option string
}.

(** The collaborators of one run.  The language-model modules and the
    store may answer the same request differently at different times,
    so each takes the number of the step in which it is called.
    [retriever] is the module's retriever after [index_directory] and
    [np_argsort] the sorting routine its [search] calls.  [json_dumps]
    is [json.dumps(_, indent=2)] on the result rows, [None] when it
    raises (as it does with [TypeError] on a row that holds [bytes]),
    and [str_score] the text an f-string gives a score. *)
Record World : Type := mkWorld {
  router_module : nat -> string -> string;
  sql_generator_module : nat -> string -> string -> string;
  synthesizer_module :
    nat -> string -> string -> option string -> option string -> string;
  schema : string;
  database : nat -> Store;
  retriever : LocalRetriever;
  np_argsort : list Q -> list nat;
  json_dumps : list RowDict -> option string;
  str_score : Q -> string
}.

(** One entry of the [dict] a node returns: a key and its new value. *)
Inductive Update : Type :=
| Classification (c : string)
| SqlQuery (q : string)
| SqlResults (rs : list RowDict)
| RetrievedDocs (ds : list string)
| Errors (es : list string)
| RetryCount (n : Z)
| FinalAnswer (a : string).

Definition apply_update (st : AgentState) (u : Update) : AgentState :=
  match u with
  | Classification c =>
      mkState (question st) (format_hint st) (Some c) (sql_query st)
        (sql_results st) (retrieved_docs st) (errors st) (retry_count st)
        (final_answer st)
  | SqlQuery q =>
      mkState (question st) (format_hint st) (classification st) (Some q)
        (sql_results st) (retrieved_docs st) (errors st) (retry_count st)
        (final_answer st)
  | SqlResults rs =>
      mkState (question st) (format_hint st) (classification st) (sql_query st)
        (Some rs) (retrieved_docs st) (errors st) (retry_count st)
        (final_answer st)
  | RetrievedDocs ds =>
      mkState (question st) (format_hint st) (classification st) (sql_query st)
        (sql_results st) (Some ds) (errors st) (retry_count st)
        (final_answer st)
  | Errors es =>
      mkState (question st) (format_hint st) (classification st) (sql_query st)
        (sql_results st) (retrieved_docs st) es (retry_count st)
        (final_answer st)
  | RetryCount n =>
      mkState (question st) (format_hint st) (classification st) (sql_query st)
        (sql_results st) (retrieved_docs st) (errors st) n
        (final_answer st)
  | FinalAnswer a =>
      mkState (question st) (format_hint st) (classification st) (sql_query st)
        (sql_results st) (retrieved_docs st) (errors st) (retry_count st)
        (Some a)
  end.

Definition apply_updates (st : AgentState) (us : list Update) : AgentState :=
  fold_left apply_update us st.

Definition LF : string := String newline EmptyString.

(** *** Nodes.  Each returns its updates, or [None] when it raises. *)

Definition router_node (w : World) (t : nat) (state : AgentState)
    : option (list Update) :=
  let classification := router_module w t (question state) in
  Some [Classification classification; Errors []].

Definition format_doc (w : World) (res : SearchResult) : string :=
  (source (chunk res) ++ "::chunk_" ++ Py.str_of_nat (chunk_id (chunk res))
   ++ LF ++ content (chunk res) ++ LF ++ str_score w (score res))%string.

Definition retriever_node (w : World) (t : nat) (state : AgentState)
    : option (list Update) :=
  match search (np_argsort w) (retriever w) (question state) 3 with
  | Some results => Some [RetrievedDocs (map (format_doc w) results)]
  | None => None
  end.

(** The question [sql_generator_node] hands to the generator. *)
Definition question_with_context (state : AgentState) : string :=
  match errors state with
  | [] => question state
  | _ :: _ =>
      let error_context := Py.join LF (errors state) in
      ("Previous attempt failed with error: " ++ error_context
       ++ ". Please correct the query. Original question: "
       ++ question state)%string
  end.

Definition sql_generator_node (w : World) (t : nat) (state : AgentState)
    : option (list Update) :=
  let response :=
    sql_generator_module w t (question_with_context state) (schema w) in
  Some [SqlQuery response; Errors []].

(** Without a query the call into the store raises.  A pair that is
    neither rows with column names nor a message without them is not
    something [run_sqlite_query] returns. *)
Definition sql_executor_node (w : World) (t : nat) (state : AgentState)
    : option (list Update) :=
  match sql_query state with
  | None => None
  | Some query =>
      match run_sqlite_query (database w t) query with
      | (Rows rows, Some column_names) =>
          Some [SqlResults (map (dict_zip column_names) rows)]
      | (Message rows, None) =>
          Some [Errors (errors state ++ [rows]);
                RetryCount (retry_count state + 1)%Z]
      | (Rows _, None) => None
      | (Message _, Some _) => None
      end
  end.

(** The context [synthesizer_node] assembles; [None] when
    [json.dumps] raises, which leaves the node. *)
Definition synthesis_context (w : World) (state : AgentState) : option string :=
  let context := EmptyString in
  match
    match sql_results state with
    | Some (r :: rs) =>
        match json_dumps w (r :: rs) with
        | Some text =>
            Some (context ++ "SQL Results:" ++ LF ++ text ++ LF ++ LF)%string
        | None => None
        end
    | _ => Some context
    end
  with
  | Some context =>
      let context :=
        match retrieved_docs state with
        | Some (d :: ds) =>
            (context ++ "Retrieved Documents:" ++ LF
             ++ Py.join (LF ++ LF) (d :: ds))%string
        | _ => context
        end in
      Some (Py.strip context)
  | None => None
  end.

Definition synthesizer_node (w : World) (t : nat) (state : AgentState)
    : option (list Update) :=
  match synthesis_context w state with
  | Some context =>
      let response :=
        synthesizer_module w t (question state) context
          (sql_query state) (format_hint state) in
      Some [FinalAnswer response]
  | None => None
  end.

(** *** Conditional edges.  [None] is Python's [None]: the function
    fell off its end without a [return]. *)

Definition route_question (state : AgentState) : option string :=
  match classification state with
  | Some c =>
      if String.eqb c "SQL" then Some "generate_sql"
      else if String.eqb c "RAG" then Some "retrieve_docs"
      else if String.eqb c "Hybrid" then Some "hybrid_flow"
      else None
  | None => None
  end.

Definition check_sql_execution (state : AgentState) : option string :=
  match errors state with
  | _ :: _ =>
      if (retry_count state <? 2)%Z then Some "generate_sql"
      else Some "synthesize"
  | [] => Some "synthesize"
  end.

Definition route_after_retrieval (state : AgentState) : option string :=
  match classification state with
  | Some c =>
      if String.eqb c "Hybrid" then Some "generate_sql" else Some "synthesize"
  | None => Some "synthesize"
  end.

(** *** The graph, as the calls on [workflow] build it *)

Inductive Node : Type :=
| router
| retrieve_docs
| generate_sql
| execute_sql
| synthesize.

(** The head of an edge: a node, or [END]. *)
Inductive Target : Type :=
| To (n : Node)
| END.

Definition node_eqb (a b : Node) : bool :=
  match a, b with
  | router, router
  | retrieve_docs, retrieve_docs
  | generate_sql, generate_sql
  | execute_sql, execute_sql
  | synthesize, synthesize => true
  | _, _ => false
  end.

(** [add_node] *)
Definition nodes : list Node :=
  [router; retrieve_docs; generate_sql; execute_sql; synthesize].

Definition node_action (n : Node)
    : World -> nat -> AgentState -> option (list Update) :=
  match n with
  | router => router_node
  | retrieve_docs => retriever_node
  | generate_sql => sql_generator_node
  | execute_sql => sql_executor_node
  | synthesize => synthesizer_node
  end.

(** [set_entry_point] *)
Definition entry_point : Node := router.

(** [add_edge], in source order. *)
Definition edges : list (Node * Target) :=
  [ (retrieve_docs, To synthesize);
    (generate_sql, To execute_sql);
    (synthesize, END) ].

Record Branch : Type := mkBranch {
  path : AgentState -> option string;
  path_map : list (string * Target)
}.

(** [add_conditional_edges], in source order. *)
Definition conditional_edges : list (Node * Branch) :=
  [ (router,
     {| path := route_question;
        path_map := [ ("generate_sql", To generate_sql);
                      ("retrieve_docs", To retrieve_docs);
                      ("hybrid_flow", To retrieve_docs) ] |});
    (retrieve_docs,
     {| path := route_after_retrieval;
        path_map := [ ("generate_sql", To generate_sql);
                      ("synthesize", To synthesize) ] |});
    (execute_sql,
     {| path := check_sql_execution;
        path_map := [ ("generate_sql", To generate_sql);
                      ("synthesize", To synthesize) ] |}) ].

(** *** How the compiled graph runs

    LangGraph runs a graph in steps.  A step runs every node that
    was triggered, each on the state the step started with; when a
    node is done, every edge that leaves it fires: the plain edges,
    and for each conditional edge the path function, called on the
    state with this node's own updates applied, whose result is
    looked up in the path map.  The updates of all nodes of the step
    are then written (two writes to one key in one step are an
    error) and the nodes the edges point to make up the next step.
    The run ends when no node is triggered. *)

Fixpoint lookup (label : string) (m : list (string * Target)) : option Target :=
  match m with
  | [] => None
  | (l, t) :: m' => if String.eqb label l then Some t else lookup label m'
  end.

Definition static_targets (n : Node) : list Target :=
  map snd (filter (fun e => node_eqb (fst e) n) edges).

(** A path function that returns [None], or a label the path map does
    not have, gives no destination. *)
Definition branch_target (b : Branch) (st : AgentState) : option Target :=
  match path b st with
  | Some label => lookup label (path_map b)
  | None => None
  end.

Definition branch_targets (n : Node) (st : AgentState) : option (list Target) :=
  Py.sequence
    (map (fun nb => branch_target (snd nb) st)
         (filter (fun nb => node_eqb (fst nb) n) conditional_edges)).

Definition successors (n : Node) (st : AgentState) : option (list Target) :=
  match branch_targets n st with
  | Some ts => Some (static_targets n ++ ts)
  | None => None
  end.

Inductive Failure : Type :=
| NodeRaised (n : Node)
| NoDestination (n : Node)
| InvalidUpdate
| RecursionLimit.

Definition run_task (w : World) (t : nat) (st : AgentState) (n : Node)
    : Failure + (list Update * list Target) :=
  match node_action n w t st with
  | None => inl (NodeRaised n)
  | Some us =>
      match successors n (apply_updates st us) with
      | None => inl (NoDestination n)
      | Some ts => inr (us, ts)
      end
  end.

Fixpoint run_tasks (w : World) (t : nat) (st : AgentState) (active : list Node)
    : Failure + (list Update * list Target) :=
  match active with
  | [] => inr ([], [])
  | n :: rest =>
      match run_task w t st n with
      | inl f => inl f
      | inr (us, ts) =>
          match run_tasks w t st rest with
          | inl f => inl f
          | inr (us', ts') => inr (us ++ us', ts ++ ts')
          end
      end
  end.

(** The state key an update writes. *)
Definition key_of (u : Update) : nat :=
  match u with
  | Classification _ => 0
  | SqlQuery _ => 1
  | SqlResults _ => 2
  | RetrievedDocs _ => 3
  | Errors _ => 4
  | RetryCount _ => 5
  | FinalAnswer _ => 6
  end.

Fixpoint distinct (l : list nat) : bool :=
  match l with
  | [] => true
  | x :: l' => negb (existsb (Nat.eqb x) l') && distinct l'
  end.

Definition points_to (n : Node) (t : Target) : bool :=
  match t with
  | To m => node_eqb m n
  | END => false
  end.

(** The nodes some fired edge points to, each once. *)
Definition triggered (ts : list Target) : list Node :=
  filter (fun n => existsb (points_to n) ts) nodes.

Definition superstep (w : World) (t : nat) (st : AgentState) (active : list Node)
    : Failure + (AgentState * list Node) :=
  match run_tasks w t st active with
  | inl f => inl f
  | inr (us, ts) =>
      if distinct (map key_of us)
      then inr (apply_updates st us, triggered ts)
      else inl InvalidUpdate
  end.

Inductive Outcome : Type :=
| Completed (final_state : AgentState)
| Failed (f : Failure).

Fixpoint pregel (w : World) (fuel t : nat) (st : AgentState) (active : list Node)
    : Outcome :=
  match active with
  | [] => Completed st
  | _ :: _ =>
      match fuel with
      | 0 => Failed RecursionLimit
      | S fuel' =>
          match superstep w t st active with
          | inl f => Failed f
          | inr (st', active') => pregel w fuel' (S t) st' active'
          end
      end
  end.

(** LangGraph's default bound on the number of steps of one run. *)
Definition recursion_limit : nat := 25.

(** [app.invoke(initial_state)] *)
Definition app_invoke (w : World) (initial_state : AgentState) : Outcome :=
  pregel w recursion_limit 0 initial_state [entry_point].

(** *** Traces: the configurations a run goes through *)

Record Config : Type := mkConfig {
  step_no : nat;
  state : AgentState;
  active : list Node
}.

Definition start (initial_state : AgentState) : Config :=
  {| step_no := 0; state := initial_state; active := [entry_point] |}.

Inductive reachable (w : World) (initial_state : AgentState) : Config -> Prop :=
| reach_start : reachable w initial_state (start initial_state)
| reach_step : forall cfg st' active',
    reachable w initial_state cfg ->
    active cfg <> [] ->
    superstep w (step_no cfg) (state cfg) (active cfg) = inr (st', active') ->
    reachable w initial_state
      {| step_no := S (step_no cfg); state := st'; active := active' |}.

End GraphHybrid.

(* ================================================================= *)
(** ** rag_agent_hybrid.py *)

Module RagAgentHybrid.

Import GraphHybrid.

(** One parsed line of the input file.  [item_id] is the value under
    the key [id], whatever JSON value that is, carried as its JSON
    text; it is [None] when the record has no such key. *)
Record Item : Type := mkItem {
  item_question : string;
  item_format_hint : option string;
  item_id : option string
}.

Definition initial_state (item : Item) : AgentState :=
  {| question := item_question item;
     format_hint := item_format_hint item;
     retry_count := 0%Z;
     errors := [];
     classification := None;
     sql_query := None;
     sql_results := None;
     retrieved_docs := None;
     final_answer := None |}.

(** What an error record holds under [id]: the value of the input
    record, or the placeholder text. *)
Inductive RecordId : Type :=
| GivenId (value : string)
| Placeholder (text : string).

(** What leaves the loop body uncaught: an exception of [app.invoke],
    or one of [json.loads] that the [except] clause does not name. *)
Inductive Uncaught : Type :=
| InvokeRaised (f : Failure)
| LoadsRaised.

(** How the loop over the questions ends: every record was done, or
    the body raised at record [at_index]. *)
Inductive BatchEnd : Type :=
| Done
| Raised (at_index : nat) (why : Uncaught).

Section Batch.

Variable Json : Type.

(** What [json.loads] does with a text: it returns the parsed value,
    raises [JSONDecodeError] (a [ValueError], which the [except]
    clause names), or raises something the clause does not name
    ([RecursionError] on deeply nested text). *)
Inductive Loads : Type :=
| Loaded (value : Json)
| DecodeError
| OtherError.

Variable json_loads : string -> Loads.

(** What one line of the output file holds. *)
Inductive OutputJson : Type :=
| Answer (parsed : Json)
| ErrorRecord (id : RecordId) (error : string) (raw_output : option string).

Definition error_record (i : nat) (item : Item) (raw_output : option string)
    : OutputJson :=
  ErrorRecord
    match item_id item with
    | Some id => GivenId id
    | None => Placeholder ("error_" ++ Py.str_of_nat (i + 1))%string
    end
    "Failed to generate valid JSON response."
    raw_output.

(** The [try] block of the loop body: the record to write, or [None]
    when an exception leaves it. *)
Definition output_json (i : nat) (item : Item) (final_state : AgentState)
    : option OutputJson :=
  let raw_output := final_answer final_state in
  match raw_output with
  | Some (String c text) =>
      match json_loads (String c text) with
      | Loaded parsed => Some (Answer parsed)
      | DecodeError => Some (error_record i item raw_output)
      | OtherError => None
      end
  | Some EmptyString => Some (error_record i item raw_output)
  | None => Some (error_record i item raw_output)
  end.

(** The loop of [run_batch] from record [i] on; [f_out] is the
    lines written so far and [world i] the collaborators as they
    behave during the run of record [i]. *)
Fixpoint run_batch_from (world : nat -> World) (i : nat)
    (questions : list Item) (f_out : list OutputJson)
    : list OutputJson * BatchEnd :=
  match questions with
  | [] => (f_out, Done)
  | item :: rest =>
      match app_invoke (world i) (initial_state item) with
      | Failed f => (f_out, Raised i (InvokeRaised f))
      | Completed final_state =>
          match output_json i item final_state with
          | Some line => run_batch_from world (S i) rest (f_out ++ [line])
          | None => (f_out, Raised i LoadsRaised)
          end
      end
  end.

Definition run_batch (world : nat -> World) (questions : list Item)
    : list OutputJson * BatchEnd :=
  run_batch_from world 0 questions [].

End Batch.

Arguments Loaded {Json} value.
Arguments DecodeError {Json}.
Arguments OtherError {Json}.
Arguments Answer {Json} parsed.
Arguments ErrorRecord {Json} id error raw_output.

End RagAgentHybrid.

(* ================================================================= *)
(** * Properties *)

Import Retrieval SqliteTool GraphHybrid RagAgentHybrid.

(* ================================================================= *)
(** ** Paragraph splitting *)

Module SplitSpec.

(** A run of [m] line breaks. *)
Fixpoint line_breaks (m : nat) : string :=
  match m with
  | 0 => EmptyString
  | S m' => String newline (line_breaks m')
  end.

Definition starts_with_newline (s : string) : bool :=
  match s with
  | String c _ => is_newline c
  | EmptyString => false
  end.

Fixpoint ends_with_newline (s : string) : bool :=
  match s with
  | EmptyString => false
  | String c EmptyString => is_newline c
  | String _ r => ends_with_newline r
  end.

(** No two consecutive line breaks anywhere in [s]. *)
Fixpoint no_blank_line (s : string) : bool :=
  match s with
  | String c r => negb (is_newline c && starts_with_newline r) && no_blank_line r
  | EmptyString => true
  end.

(** [paragraphs text ps]: [text] is the pieces [ps] with a run of
    two or more line breaks between neighbours, every run taken
    whole: no piece holds two line breaks in a row, the piece before
    a run does not end in a line break and the text after it does not
    begin with one. *)
Inductive paragraphs : string -> list string -> Prop :=
| paragraphs_last : forall p,
    no_blank_line p = true ->
    paragraphs p [p]
| paragraphs_cons : forall p m rest ps,
    no_blank_line p = true ->
    ends_with_newline p = false ->
    2 <= m ->
    starts_with_newline rest = false ->
    paragraphs rest ps ->
    paragraphs (p ++ line_breaks m ++ rest)%string (p :: ps).

Fixpoint drop_newlines (s : string) : string :=
  match s with
  | String c r => if is_newline c then drop_newlines r else s
  | EmptyString => EmptyString
  end.

Fixpoint count_newlines (s : string) : nat :=
  match s with
  | String c r => if is_newline c then S (count_newlines r) else 0
  | EmptyString => 0
  end.

Lemma is_newline_true : forall c, is_newline c = true -> c = newline.
Proof. intros c H. apply Ascii.eqb_eq. exact H. Qed.

Lemma drop_newlines_spec : forall s,
  s = (line_breaks (count_newlines s) ++ drop_newlines s)%string
  /\ starts_with_newline (drop_newlines s) = false.
Proof.
  induction s as [|c r [IH1 IH2]]; simpl; [auto|].
  destruct (is_newline c) eqn:E; simpl.
  - apply is_newline_true in E. subst c. split; [f_equal; exact IH1 | exact IH2].
  - split; [reflexivity | exact E].
Qed.

Lemma drop_newlines_length : forall s,
  String.length (drop_newlines s) <= String.length s.
Proof.
  induction s as [|c r IH]; simpl; [lia|].
  destruct (is_newline c); simpl; lia.
Qed.

Lemma re_split_in_separator : forall s,
  re_split true s = re_split false (drop_newlines s).
Proof.
  induction s as [|c r IH]; simpl; [reflexivity|].
  destruct (is_newline c) eqn:E; [exact IH|].
  simpl. rewrite E. reflexivity.
Qed.

Lemma paragraphs_push : forall c rest ps,
  paragraphs rest ps ->
  is_newline c && starts_with_newline rest = false ->
  paragraphs (String c rest) (push c ps).
Proof.
  intros c rest ps H Hc. inversion H as [p Hp | p m rest' ps' Hp He Hm Hs Hps]; subst; simpl.
  - apply paragraphs_last. simpl. rewrite Hc, Hp. reflexivity.
  - change (String c (p ++ line_breaks m ++ rest'))%string
      with (String c p ++ line_breaks m ++ rest')%string.
    assert (Hstart : starts_with_newline (p ++ line_breaks m ++ rest')%string
                     = match p with
                       | EmptyString => true
                       | String c' _ => is_newline c'
                       end).
    { destruct p; simpl; [|reflexivity].
      destruct m as [|m']; [lia|]. reflexivity. }
    rewrite Hstart in Hc.
    apply paragraphs_cons; auto.
    + simpl. rewrite Hp, andb_true_r.
      destruct p as [|c' p']; simpl.
      * rewrite andb_false_r. reflexivity.
      * rewrite Hc. reflexivity.
    + destruct p as [|c' p'].
      * simpl. rewrite andb_true_r in Hc. exact Hc.
      * exact He.
Qed.

Theorem re_split_paragraphs : forall text,
  paragraphs text (split_paragraphs text).
Proof.
  unfold split_paragraphs.
  intros text. remember (String.length text) as n eqn:Hn.
  revert text Hn. induction n as [n IH] using lt_wf_ind. intros text Hn.
  destruct text as [|c rest]; simpl.
  - apply paragraphs_last. reflexivity.
  - assert (Hpush : is_newline c && starts_with_newline rest = false ->
                    paragraphs (String c rest) (push c (re_split false rest))).
    { intros Hc. apply paragraphs_push; [|exact Hc].
      apply (IH (String.length rest)); [subst n; simpl; lia | reflexivity]. }
    destruct (is_newline c) eqn:Ec.
    + destruct rest as [|c' r].
      * apply Hpush. reflexivity.
      * destruct (is_newline c') eqn:Ec'.
        -- apply is_newline_true in Ec, Ec'. subst c c'.
           simpl. rewrite re_split_in_separator.
           change (is_newline newline) with true. cbv iota.
           destruct (drop_newlines_spec r) as [Hr Hs].
           rewrite Hr at 1.
           change (String newline (String newline
                     (line_breaks (count_newlines r) ++ drop_newlines r)))%string
             with ("" ++ line_breaks (S (S (count_newlines r))) ++ drop_newlines r)%string.
           apply paragraphs_cons; auto; [lia|].
           apply (IH (String.length (drop_newlines r))); [|reflexivity].
           subst n. simpl. pose proof (drop_newlines_length r). lia.
        -- apply Hpush. simpl. rewrite Ec'. reflexivity.
    + apply Hpush. reflexivity.
Qed.

End SplitSpec.

(* ================================================================= *)
(** ** Ranking *)

Module SearchSpec.

(** What NumPy promises of [argsort] on scores that can be compared:
    the positions of the array, each once, in ascending order of
    score.  Nothing is promised about the order of equal scores. *)
Definition sorts (argsort : list Q -> list nat) : Prop :=
  forall scores,
    Permutation (argsort scores) (seq 0 (List.length scores))
    /\ StronglySorted (fun i j => (nth i scores 0 <= nth j scores 0)%Q)
         (argsort scores).

Lemma StronglySorted_skipn : forall (A : Type) (R : A -> A -> Prop) n l,
  StronglySorted R l -> StronglySorted R (skipn n l).
Proof.
  intros A R n. induction n as [|n IH]; intros l Hs; simpl; [exact Hs|].
  destruct l as [|x l]; [constructor|].
  apply IH. inversion Hs; assumption.
Qed.

Lemma StronglySorted_rev : forall (A : Type) (R : A -> A -> Prop) l,
  StronglySorted R l -> StronglySorted (fun a b => R b a) (rev l).
Proof.
  intros A R l Hs. induction Hs as [|x l Hs IH Hx]; simpl; [constructor|].
  revert IH. rewrite <- (rev_involutive l) in Hx.
  apply Forall_rev in Hx. rewrite rev_involutive in Hx. revert Hx.
  generalize (rev l). intros r Hx Hr.
  induction Hr as [|y r Hr IH Hy]; simpl.
  - repeat constructor.
  - inversion Hx; subst. constructor; [apply IH; assumption|].
    apply Forall_app. split; [exact Hy|]. repeat constructor. assumption.
Qed.

Lemma StronglySorted_app_inv : forall (A : Type) (R : A -> A -> Prop) l1 l2,
  StronglySorted R (l1 ++ l2) ->
  forall x y, In x l1 -> In y l2 -> R x y.
Proof.
  intros A R l1. induction l1 as [|a l1 IH]; intros l2 Hs x y Hx Hy.
  - contradiction.
  - simpl in Hs. inversion Hs as [|? ? Hs' Ha]; subst.
    destruct Hx as [<- | Hx].
    + rewrite Forall_forall in Ha. apply Ha. apply in_or_app. right. exact Hy.
    + apply (IH l2 Hs' x y Hx Hy).
Qed.

Lemma StronglySorted_map : forall (A B : Type) (R : B -> B -> Prop) (f : A -> B) l,
  StronglySorted (fun x y => R (f x) (f y)) l -> StronglySorted R (map f l).
Proof.
  intros A B R f l H. induction H as [|x l H IH Hx]; simpl; constructor.
  - exact IH.
  - apply Forall_forall. intros y Hy. apply in_map_iff in Hy.
    destruct Hy as [z [<- Hz]]. rewrite Forall_forall in Hx. apply Hx. exact Hz.
Qed.

Lemma slice_from_last_length : forall (A : Type) (k : Z) (l : list A),
  (0 < k)%Z ->
  List.length (Py.slice_from (- k) l) = Nat.min (Z.to_nat k) (List.length l).
Proof.
  intros A k l Hk. unfold Py.slice_from.
  destruct (Z.ltb_spec (- k) 0); [|lia].
  rewrite length_skipn. lia.
Qed.

Lemma slice_from_map : forall (A B : Type) (f : A -> B) start (l : list A),
  Py.slice_from start (map f l) = map f (Py.slice_from start l).
Proof.
  intros A B f start l. unfold Py.slice_from.
  rewrite length_map. apply skipn_map.
Qed.

Lemma In_skipn : forall (A : Type) n (l : list A) x, In x (skipn n l) -> In x l.
Proof.
  intros A n. induction n as [|n IH]; intros l x H; simpl in H; [exact H|].
  destruct l as [|y l]; [exact H|]. right. apply IH. exact H.
Qed.

Lemma NoDup_skipn : forall (A : Type) n (l : list A), NoDup l -> NoDup (skipn n l).
Proof.
  intros A n. induction n as [|n IH]; intros l H; simpl; [exact H|].
  destruct l as [|x l]; [constructor|]. apply IH. inversion H; assumption.
Qed.

Lemma sorted_position_valid : forall argsort scores i,
  sorts argsort -> In i (argsort scores) -> i < List.length scores.
Proof.
  intros argsort scores i H Hi. destruct (H scores) as [Hp _].
  apply (Permutation_in _ Hp) in Hi. apply in_seq in Hi. lia.
Qed.

(** The scored positions [search] picks, best first: the tail of the
    ascending order, reversed. *)
Definition picked (argsort : list Q -> list nat) (scores : list Q) (k : Z)
    : list (nat * Q) :=
  map (fun i => (i, nth i scores 0%Q))
    (rev (Py.slice_from (- k) (argsort scores))).

Lemma picked_positions : forall argsort scores k,
  map fst (picked argsort scores k)
  = rev (Py.slice_from (- k) (argsort scores)).
Proof.
  intros argsort scores k. unfold picked. rewrite map_map. simpl. apply map_id.
Qed.

Lemma picked_in : forall argsort scores k p,
  In p (picked argsort scores k) ->
  In (fst p) (argsort scores) /\ snd p = nth (fst p) scores 0%Q.
Proof.
  intros argsort scores k p H. unfold picked in H. apply in_map_iff in H.
  destruct H as [i [<- Hi]]. simpl. split; [|reflexivity].
  apply in_rev in Hi. unfold Py.slice_from in Hi. apply In_skipn in Hi. exact Hi.
Qed.

Lemma picked_lookup : forall argsort scores k,
  sorts argsort ->
  Forall (fun p => nth_error scores (fst p) = Some (snd p))
    (picked argsort scores k).
Proof.
  intros argsort scores k H. apply Forall_forall. intros p Hp.
  apply picked_in in Hp. destruct Hp as [Hi ->].
  apply nth_error_nth'. eapply sorted_position_valid; eassumption.
Qed.

Lemma picked_descending : forall argsort scores k,
  sorts argsort ->
  StronglySorted (fun a b => (snd b <= snd a)%Q) (picked argsort scores k).
Proof.
  intros argsort scores k H. unfold picked.
  apply (StronglySorted_map _ _ (fun a b => (snd b <= snd a)%Q)). simpl.
  apply (StronglySorted_rev _ (fun i j => (nth i scores 0 <= nth j scores 0)%Q)).
  unfold Py.slice_from. apply StronglySorted_skipn. apply (H scores).
Qed.

Lemma picked_length : forall argsort scores k,
  sorts argsort ->
  (0 < k)%Z ->
  List.length (picked argsort scores k)
  = Nat.min (Z.to_nat k) (List.length scores).
Proof.
  intros argsort scores k H Hk. unfold picked.
  rewrite length_map, length_rev, slice_from_last_length by exact Hk.
  destruct (H scores) as [Hp _].
  rewrite (Permutation_length Hp), length_seq. reflexivity.
Qed.

Lemma picked_positions_distinct : forall argsort scores k,
  sorts argsort -> NoDup (map fst (picked argsort scores k)).
Proof.
  intros argsort scores k H. rewrite picked_positions. apply NoDup_rev.
  unfold Py.slice_from. apply NoDup_skipn.
  destruct (H scores) as [Hp _].
  apply (Permutation_NoDup (Permutation_sym Hp)). apply seq_NoDup.
Qed.

Lemma picked_all : forall argsort scores k,
  sorts argsort ->
  (Z.of_nat (List.length scores) <= k)%Z \/ k = 0%Z ->
  Permutation (map fst (picked argsort scores k)) (seq 0 (List.length scores)).
Proof.
  intros argsort scores k H Hk. rewrite picked_positions.
  destruct (H scores) as [Hp _].
  unfold Py.slice_from. rewrite (Permutation_length Hp), length_seq.
  replace (Z.to_nat _) with 0.
  - simpl. rewrite <- Permutation_rev. exact Hp.
  - destruct (Z.ltb_spec (- k) 0); lia.
Qed.

(** Every position is picked, or scores no more than any picked one. *)
Lemma picked_best : forall argsort scores k i s,
  sorts argsort ->
  nth_error scores i = Some s ->
  In (i, s) (picked argsort scores k)
  \/ Forall (fun p => (s <= snd p)%Q) (picked argsort scores k).
Proof.
  intros argsort scores k i s H Hi.
  destruct (H scores) as [Hp Hs].
  assert (Hlt : i < List.length scores) by (apply nth_error_Some; congruence).
  assert (Hs' : nth i scores 0%Q = s) by (apply nth_error_nth; exact Hi).
  assert (Hin : In i (argsort scores)).
  { apply (Permutation_in _ (Permutation_sym Hp)). apply in_seq. lia. }
  unfold picked, Py.slice_from. set (m := Z.to_nat _). clearbody m.
  rewrite <- (firstn_skipn m (argsort scores)) in Hin, Hs.
  apply in_app_or in Hin. destruct Hin as [Hin | Hin].
  - right. apply Forall_forall. intros p Hp'. apply in_map_iff in Hp'.
    destruct Hp' as [j [<- Hj]]. simpl. apply in_rev in Hj. rewrite <- Hs'.
    apply (StronglySorted_app_inv _ _ _ _ Hs _ _ Hin Hj).
  - left. apply in_map_iff. exists i. rewrite Hs'. split; [reflexivity|].
    apply -> in_rev. exact Hin.
Qed.

Lemma picked_complete : forall argsort scores k i s,
  sorts argsort ->
  (Z.of_nat (List.length scores) <= k)%Z \/ k = 0%Z ->
  nth_error scores i = Some s ->
  In (i, s) (picked argsort scores k).
Proof.
  intros argsort scores k i s H Hk Hi.
  assert (Hlt : i < List.length scores) by (apply nth_error_Some; congruence).
  assert (Hin : In i (map fst (picked argsort scores k))).
  { apply (Permutation_in _ (Permutation_sym (picked_all _ _ _ H Hk))).
    apply in_seq. lia. }
  apply in_map_iff in Hin. destruct Hin as [[i' s'] [E Hin]]. simpl in E. subst i'.
  destruct (picked_in _ _ _ _ Hin) as [_ Hs]. simpl in Hs.
  rewrite (nth_error_nth _ _ _ Hi) in Hs. subst s'. exact Hin.
Qed.

(** [shows cs p r]: result [r] is the chunk at position [fst p] of
    [cs] with the score [snd p]. *)
Definition shows (cs : list Chunk) (p : nat * Q) (r : SearchResult) : Prop :=
  score r = snd p /\ nth_error cs (fst p) = Some (chunk r).

Lemma sequence_results : forall scores cs (ps : list (nat * Q)),
  List.length scores = List.length cs ->
  Forall (fun p => nth_error scores (fst p) = Some (snd p)) ps ->
  exists results,
    Py.sequence (map (result_at scores cs) (map fst ps)) = Some results
    /\ Forall2 (shows cs) ps results.
Proof.
  intros scores cs ps Hlen Hps. induction Hps as [|p ps Hp Hps IH]; simpl.
  - exists []. split; [reflexivity | constructor].
  - destruct IH as [results [Hseq Hall]].
    unfold result_at at 1. rewrite Hp.
    destruct (nth_error cs (fst p)) as [c|] eqn:Ec.
    + rewrite Hseq. eexists. split; [reflexivity|].
      constructor; [|exact Hall]. split; [reflexivity | exact Ec].
    + apply nth_error_None in Ec.
      assert (fst p < List.length scores).
      { apply nth_error_Some. congruence. }
      lia.
Qed.

(** An index as [index_directory] leaves it when some chunk was found
    and the fit returned: the matrix is set and has one row per
    chunk. *)
Definition built (self : LocalRetriever) : Prop :=
  chunks self <> []
  /\ exists tfidf,
       tfidf_matrix self = Some tfidf
       /\ forall query,
            List.length (cosine_similarity tfidf query) = List.length (chunks self).

(** The scores [search] works with. *)
Definition scores_for (self : LocalRetriever) (query : string) : list Q :=
  match tfidf_matrix self with
  | Some tfidf => cosine_similarity tfidf query
  | None => []
  end.

Lemma built_scores_length : forall self query,
  built self ->
  List.length (scores_for self query) = List.length (chunks self).
Proof.
  intros self query [_ [tf [Htf Hl]]]. unfold scores_for. rewrite Htf. apply Hl.
Qed.

Lemma search_picked : forall argsort self query k,
  sorts argsort ->
  built self ->
  exists results,
    search argsort self query k = Some results
    /\ Forall2 (shows (chunks self)) (picked argsort (scores_for self query) k)
         results.
Proof.
  intros argsort self query k Hsort [Hne [tfidf [Htf Hlen]]].
  unfold search, scores_for. rewrite Htf.
  destruct (chunks self) as [|c cs] eqn:Ecs; [congruence|].
  rewrite <- Ecs in *.
  destruct (sequence_results (cosine_similarity tfidf query) (chunks self)
              (picked argsort (cosine_similarity tfidf query) k) (Hlen query)
              (picked_lookup _ _ _ Hsort)) as [results [Hseq Hall]].
  exists results. split; [|exact Hall].
  rewrite <- Hseq, picked_positions. reflexivity.
Qed.

Lemma shows_scores_descend : forall cs ps results,
  Forall2 (shows cs) ps results ->
  StronglySorted (fun a b => (snd b <= snd a)%Q) ps ->
  StronglySorted (fun r1 r2 => (score r2 <= score r1)%Q) results.
Proof.
  intros cs ps results H. induction H as [|p r ps results Hpr Hall IH]; intros Hs.
  - constructor.
  - inversion Hs as [|? ? Hs' Hp]; subst. constructor; [apply IH; exact Hs'|].
    clear IH Hs Hs'. induction Hall as [|p' r' ps results Hpr' Hall IH].
    + constructor.
    + inversion Hp; subst. constructor; [|apply IH; assumption].
      destruct Hpr as [-> _]. destruct Hpr' as [-> _]. assumption.
Qed.

Lemma shows_scores_above : forall cs ps results s,
  Forall2 (shows cs) ps results ->
  Forall (fun p => (s <= snd p)%Q) ps ->
  Forall (fun r => (s <= score r)%Q) results.
Proof.
  intros cs ps results s H. induction H as [|p r ps results [Hsc _] Hall IH];
    intros Hps; [constructor|].
  inversion Hps; subst. constructor; [rewrite Hsc; assumption | apply IH; assumption].
Qed.

Lemma shows_in : forall cs ps results p,
  Forall2 (shows cs) ps results ->
  In p ps ->
  exists r, In r results /\ shows cs p r.
Proof.
  intros cs ps results p H Hin.
  induction H as [|p' r ps results Hpr Hall IH]; [contradiction|].
  destruct Hin as [-> | Hin].
  - exists r. split; [left; reflexivity | exact Hpr].
  - destruct (IH Hin) as [r' [Hr Hs]]. exists r'. split; [right; exact Hr | exact Hs].
Qed.

Lemma shows_covers : forall cs ps results i s c,
  Forall2 (shows cs) ps results ->
  In (i, s) ps ->
  nth_error cs i = Some c ->
  In c (map chunk results).
Proof.
  intros cs ps results i s c H Hin Hc.
  destruct (shows_in _ _ _ _ H Hin) as [r [Hr [_ Hch]]]. simpl in Hch.
  apply in_map_iff. exists r. split; [congruence | exact Hr].
Qed.

Lemma search_same_index : forall argsort self self' query k,
  built self -> built self' ->
  chunks self' = chunks self ->
  scores_for self' query = scores_for self query ->
  search argsort self' query k = search argsort self query k.
Proof.
  intros argsort self self' query k [_ [tf [Htf _]]] [_ [tf' [Htf' _]]] Hc Hs.
  unfold search, scores_for in *.
  rewrite Htf, Htf' in *. rewrite Hc, Hs.
  reflexivity.
Qed.

End SearchSpec.

(* ================================================================= *)
(** ** Sorting routines for examples *)

(** Two routines that meet NumPy's promise and differ in the order of
    equal scores: [insertion_argsort] keeps them in the order of their
    positions, [reversing_argsort] lists them last position first.
    They serve to run examples; no property below depends on the
    order of equal scores unless it says so. *)
Module Sorters.

Import SearchSpec.

Fixpoint insert_scored (x : nat * Q) (l : list (nat * Q)) : list (nat * Q) :=
  match l with
  | [] => [x]
  | y :: l' =>
      if Qle_bool (snd x) (snd y) then x :: l else y :: insert_scored x l'
  end.

Fixpoint sort_scored (l : list (nat * Q)) : list (nat * Q) :=
  match l with
  | [] => []
  | x :: l' => insert_scored x (sort_scored l')
  end.

Definition scored (scores : list Q) : list (nat * Q) :=
  combine (seq 0 (List.length scores)) scores.

Definition insertion_argsort (scores : list Q) : list nat :=
  map fst (sort_scored (scored scores)).

(** [before a b]: the scored position [a] sorts before [b]: a smaller
    score, or the same score at an earlier position. *)
Definition before (a b : nat * Q) : Prop :=
  (snd a < snd b)%Q \/ ((snd a == snd b)%Q /\ fst a < fst b).

Lemma before_score_le : forall a b, before a b -> (snd a <= snd b)%Q.
Proof.
  intros a b [H | [H _]]; [apply Qlt_le_weak; exact H|].
  rewrite H. apply Qle_refl.
Qed.

Lemma insert_scored_perm : forall x l, Permutation (insert_scored x l) (x :: l).
Proof.
  intros x l. induction l as [|y l IH]; simpl; [reflexivity|].
  destruct (Qle_bool (snd x) (snd y)); [reflexivity|].
  rewrite IH. apply perm_swap.
Qed.

Lemma sort_scored_perm : forall l, Permutation (sort_scored l) l.
Proof.
  induction l as [|x l IH]; simpl; [reflexivity|].
  rewrite insert_scored_perm. constructor. exact IH.
Qed.

Lemma insert_scored_before : forall x l,
  StronglySorted before l ->
  Forall (fun y => fst x < fst y) l ->
  StronglySorted before (insert_scored x l).
Proof.
  intros x l Hs Hx. induction Hs as [|y l Hs IH Hy]; simpl.
  - repeat constructor.
  - inversion Hx as [|? ? Hxy Hxl]; subst.
    destruct (Qle_bool (snd x) (snd y)) eqn:E.
    + apply Qle_bool_iff in E.
      constructor; [constructor; assumption|].
      assert (Hb : before x y).
      { apply Qle_lteq in E. destruct E as [E | E]; [left; exact E | right; auto]. }
      constructor; [exact Hb|].
      rewrite Forall_forall in *. intros z Hz.
      pose proof (before_score_le _ _ (Hy z Hz)) as Hyz.
      assert (Hxz : (snd x <= snd z)%Q) by (eapply Qle_trans; eassumption).
      apply Qle_lteq in Hxz. destruct Hxz as [Hxz | Hxz]; [left; exact Hxz|].
      right. split; [exact Hxz | apply Hxl; exact Hz].
    + assert (Hlt : (snd y < snd x)%Q).
      { apply Qnot_le_lt. intros H. apply Qle_bool_iff in H. congruence. }
      constructor; [apply IH; exact Hxl|].
      rewrite insert_scored_perm.
      constructor; [left; exact Hlt | exact Hy].
Qed.

Lemma sort_scored_before : forall l,
  StronglySorted (fun a b => fst a < fst b) l ->
  StronglySorted before (sort_scored l).
Proof.
  intros l Hs. induction Hs as [|x l Hs IH Hx]; simpl; [constructor|].
  apply insert_scored_before; [exact IH|].
  rewrite sort_scored_perm. exact Hx.
Qed.

Lemma combine_seq_positions : forall (scores : list Q) start,
  StronglySorted (fun a b => fst a < fst b)
    (combine (seq start (List.length scores)) scores)
  /\ Forall (fun p => start <= fst p
                      /\ nth_error scores (fst p - start) = Some (snd p))
       (combine (seq start (List.length scores)) scores).
Proof.
  induction scores as [|s scores IH]; intros start; simpl.
  - split; constructor.
  - destruct (IH (S start)) as [IH1 IH2]. split.
    + constructor; [exact IH1|].
      eapply Forall_impl; [|exact IH2]. simpl. intros p [Hp _]. lia.
    + constructor; [simpl; rewrite Nat.sub_diag; auto|].
      eapply Forall_impl; [|exact IH2]. simpl. intros p [Hp Hn]. split; [lia|].
      replace (fst p - start) with (S (fst p - S start)) by lia. exact Hn.
Qed.

Lemma scored_lookup : forall scores,
  Forall (fun p => nth_error scores (fst p) = Some (snd p)) (scored scores).
Proof.
  intros scores. destruct (combine_seq_positions scores 0) as [_ H].
  eapply Forall_impl; [|exact H]. simpl. intros p [_ Hp].
  rewrite Nat.sub_0_r in Hp. exact Hp.
Qed.

Lemma insertion_argsort_permutation : forall scores,
  Permutation (insertion_argsort scores) (seq 0 (List.length scores)).
Proof.
  intros scores. unfold insertion_argsort.
  rewrite (Permutation_map fst (sort_scored_perm _)).
  unfold scored. generalize 0.
  induction scores as [|s scores IH]; intros start; simpl; [reflexivity|].
  constructor. apply IH.
Qed.

Lemma sorted_scored : forall scores,
  StronglySorted before (sort_scored (scored scores)).
Proof.
  intros scores. apply sort_scored_before.
  apply (combine_seq_positions scores 0).
Qed.

Lemma insertion_argsort_sorts : sorts insertion_argsort.
Proof.
  intros scores. split; [apply insertion_argsort_permutation|].
  unfold insertion_argsort.
  pose proof (sorted_scored scores) as Hs.
  assert (Hl : Forall (fun p => nth_error scores (fst p) = Some (snd p))
                 (sort_scored (scored scores))).
  { apply Forall_forall. intros p Hp.
    apply (Permutation_in _ (sort_scored_perm _)) in Hp.
    pose proof (scored_lookup scores) as H. rewrite Forall_forall in H.
    apply H. exact Hp. }
  induction Hs as [|p l Hs IH Hp]; simpl; constructor.
  - apply IH. inversion Hl; assumption.
  - inversion Hl as [|? ? Hp0 Hl0]; subst.
    rewrite Forall_forall in *. intros j Hj. apply in_map_iff in Hj.
    destruct Hj as [q [<- Hq]].
    rewrite (nth_error_nth _ _ _ Hp0), (nth_error_nth _ _ _ (Hl0 q Hq)).
    apply before_score_le. apply Hp. exact Hq.
Qed.

(** A second routine that meets the promise and treats equal scores
    the other way round: a score is inserted behind the scores equal
    to it, so of equal scores the later position comes first. *)
Fixpoint insert_behind (x : nat * Q) (l : list (nat * Q)) : list (nat * Q) :=
  match l with
  | [] => [x]
  | y :: l' =>
      if Qle_bool (snd y) (snd x) then y :: insert_behind x l' else x :: l
  end.

Fixpoint sort_behind (l : list (nat * Q)) : list (nat * Q) :=
  match l with
  | [] => []
  | x :: l' => insert_behind x (sort_behind l')
  end.

Definition reversing_argsort (scores : list Q) : list nat :=
  map fst (sort_behind (scored scores)).

Lemma insert_behind_perm : forall x l, Permutation (insert_behind x l) (x :: l).
Proof.
  intros x l. induction l as [|y l IH]; simpl; [reflexivity|].
  destruct (Qle_bool (snd y) (snd x)); [|reflexivity].
  rewrite IH. apply perm_swap.
Qed.

Lemma sort_behind_perm : forall l, Permutation (sort_behind l) l.
Proof.
  induction l as [|x l IH]; simpl; [reflexivity|].
  rewrite insert_behind_perm. constructor. exact IH.
Qed.

Lemma insert_behind_sorted : forall x l,
  StronglySorted (fun a b => (snd a <= snd b)%Q) l ->
  StronglySorted (fun a b => (snd a <= snd b)%Q) (insert_behind x l).
Proof.
  intros x l H. induction H as [|y l H IH Hy]; simpl.
  - constructor; constructor.
  - destruct (Qle_bool (snd y) (snd x)) eqn:E.
    + constructor; [exact IH|].
      apply Forall_forall. intros z Hz.
      apply (Permutation_in _ (insert_behind_perm x l)) in Hz.
      destruct Hz as [<- | Hz]; [apply Qle_bool_iff; exact E|].
      rewrite Forall_forall in Hy. apply Hy. exact Hz.
    + assert (Hxy : (snd x <= snd y)%Q).
      { destruct (Qlt_le_dec (snd y) (snd x)) as [Hlt | Hle]; [|exact Hle].
        apply Qlt_le_weak in Hlt. apply Qle_bool_iff in Hlt. congruence. }
      constructor; [constructor; assumption|].
      constructor; [exact Hxy|].
      eapply Forall_impl; [|exact Hy]. simpl. intros z Hz.
      eapply Qle_trans; eassumption.
Qed.

Lemma sort_behind_sorted : forall l,
  StronglySorted (fun a b => (snd a <= snd b)%Q) (sort_behind l).
Proof.
  induction l as [|x l IH]; simpl; [constructor|].
  apply insert_behind_sorted. exact IH.
Qed.

(** A routine that permutes the scored positions and puts them in
    ascending order of score meets NumPy's promise. *)
Lemma scored_sort_sorts : forall sort : list (nat * Q) -> list (nat * Q),
  (forall l, Permutation (sort l) l) ->
  (forall l, StronglySorted (fun a b => (snd a <= snd b)%Q) (sort l)) ->
  sorts (fun scores => map fst (sort (scored scores))).
Proof.
  intros sort Hperm Hsorted scores. split.
  - rewrite (Permutation_map fst (Hperm _)).
    unfold scored. generalize 0.
    induction scores as [|s scores IH]; intros start; simpl; [reflexivity|].
    constructor. apply IH.
  - assert (Hl : Forall (fun p => nth_error scores (fst p) = Some (snd p))
                   (sort (scored scores))).
    { apply Forall_forall. intros p Hp.
      apply (Permutation_in _ (Hperm _)) in Hp.
      pose proof (scored_lookup scores) as H. rewrite Forall_forall in H.
      apply H. exact Hp. }
    pose proof (Hsorted (scored scores)) as Hs.
    induction Hs as [|p l Hs IH Hp]; simpl; constructor.
    + apply IH. inversion Hl; assumption.
    + inversion Hl as [|? ? Hp0 Hl0]; subst.
      rewrite Forall_forall in *. intros j Hj. apply in_map_iff in Hj.
      destruct Hj as [q [<- Hq]].
      rewrite (nth_error_nth _ _ _ Hp0), (nth_error_nth _ _ _ (Hl0 q Hq)).
      apply Hp. exact Hq.
Qed.

Lemma reversing_argsort_sorts : sorts reversing_argsort.
Proof.
  apply (scored_sort_sorts sort_behind sort_behind_perm sort_behind_sorted).
Qed.

End Sorters.

(* ================================================================= *)
(** ** Fragments and search results *)

Module ChunkSpec.

Import SplitSpec.

(** Empty, or nothing but whitespace. *)
Fixpoint blank (s : string) : bool :=
  match s with
  | EmptyString => true
  | String c r => Py.isspace c && blank r
  end.

Lemma rstrip_keeps_head : forall c r,
  Py.isspace c = false -> Py.truthy (Py.rstrip (String c r)) = true.
Proof.
  intros c r Hc. simpl. destruct (Py.rstrip r); [rewrite Hc|]; reflexivity.
Qed.

Lemma strip_truthy : forall s, Py.truthy (Py.strip s) = negb (blank s).
Proof.
  unfold Py.strip. induction s as [|c r IH]; [reflexivity|].
  simpl Py.lstrip. simpl blank.
  destruct (Py.isspace c) eqn:Ec; [exact IH|].
  rewrite rstrip_keeps_head by exact Ec. reflexivity.
Qed.

(** The chunk kept for paragraph [para] at position [i]. *)
Definition chunk_of (filename : string) (i : nat) (para : string) : Chunk :=
  {| content := Py.strip para; source := filename; chunk_id := i |}.

Definition kept (filename : string) (ip : nat * string) : list Chunk :=
  let '(i, para) := ip in
  if Py.truthy (Py.strip para) then [chunk_of filename i para] else [].

Lemma kept_chunks_in : forall filename ps start c,
  In c (flat_map (kept filename) (Py.enumerate_from start ps))
  <-> exists i para,
        nth_error ps i = Some para /\ blank para = false
        /\ c = chunk_of filename (start + i) para.
Proof.
  intros filename ps. induction ps as [|p ps IH]; intros start c; simpl.
  - split; [tauto|]. intros [i [para [H _]]]. destruct i; discriminate.
  - rewrite in_app_iff, IH. rewrite strip_truthy. split.
    + intros [H | [i [para [Hn [Hb Hc]]]]].
      * destruct (blank p) eqn:Eb; simpl in H; [tauto|].
        destruct H as [H | []]. exists 0, p. rewrite Nat.add_0_r. auto.
      * exists (S i), para. rewrite Nat.add_succ_r. auto.
    + intros [[|i] [para [Hn [Hb Hc]]]]; simpl in Hn.
      * injection Hn as ->. rewrite Hb. simpl. rewrite Nat.add_0_r in Hc. auto.
      * right. exists i, para. rewrite Nat.add_succ_r in Hc. auto.
Qed.

Lemma kept_chunks_increasing : forall filename ps start,
  StronglySorted lt
    (map chunk_id (flat_map (kept filename) (Py.enumerate_from start ps))).
Proof.
  intros filename ps. induction ps as [|p ps IH]; intros start; simpl.
  - constructor.
  - rewrite map_app. destruct (Py.truthy (Py.strip p)); simpl; [|apply IH].
    constructor; [apply IH|].
    apply Forall_forall. intros j Hj. apply in_map_iff in Hj.
    destruct Hj as [c [<- Hc]]. apply kept_chunks_in in Hc.
    destruct Hc as [i [para [_ [_ ->]]]]. simpl. lia.
Qed.

Lemma kept_chunks_all : forall filename ps start,
  existsb blank ps = false ->
  map chunk_id (flat_map (kept filename) (Py.enumerate_from start ps))
  = seq start (List.length ps).
Proof.
  intros filename ps. induction ps as [|p ps IH]; intros start Hb; simpl; [reflexivity|].
  simpl in Hb. apply orb_false_iff in Hb. destruct Hb as [Hp Hps].
  rewrite strip_truthy, Hp. simpl. f_equal. apply IH; auto.
Qed.

End ChunkSpec.


Import SplitSpec ChunkSpec SearchSpec Sorters.

(** *** Fragment ordinals *)

(** The reading of the specification: the retained fragments of a
    source are numbered 0, 1, 2, ... *)
Fixpoint counts_from (start : nat) (ids : list nat) : bool :=
  match ids with
  | [] => true
  | i :: ids' => Nat.eqb i start && counts_from (S start) ids'
  end.

Definition consecutive_ordinals (cs : list Chunk) : bool :=
  counts_from 0 (map chunk_id cs).

(** No discarded paragraph comes before a retained one: from the first
    blank paragraph on, every paragraph is blank. *)
Fixpoint discards_trail (ps : list string) : bool :=
  match ps with
  | [] => true
  | p :: ps' => if blank p then forallb blank ps' else discards_trail ps'
  end.

(** The number of discarded paragraphs among [ps]. *)
Definition discarded (ps : list string) : nat :=
  List.length (filter blank ps).

(** A document whose second paragraph holds two spaces only. *)
Definition titled_text : string :=
  ("# Title" ++ LF ++ LF ++ "  " ++ LF ++ LF ++ "Body")%string.

(** C6, counterexample: the text ["# Title\n\n  \n\nBody"] splits into
    three paragraphs of which the blank second one is discarded; the
    two retained fragments carry the ordinals 0 and 2, not 0 and 1. *)
Lemma ordinals_skip_discarded_paragraphs :
  split_paragraphs titled_text = ["# Title"; "  "; "Body"]
  /\ paragraph_chunks titled_text "notes.md"
     = [ {| content := "# Title"; source := "notes.md"; chunk_id := 0 |};
         {| content := "Body"; source := "notes.md"; chunk_id := 2 |} ]
  /\ consecutive_ordinals (paragraph_chunks titled_text "notes.md") = false.
Proof. repeat split; reflexivity. Qed.

(** A discarded paragraph behind the last retained one leaves the
    ordinals consecutive: ["A\n\nB\n\n"] splits into [A], [B] and an
    empty paragraph, and the fragments carry the ordinals 0 and 1. *)
Lemma trailing_blank_keeps_ordinals :
  split_paragraphs ("A" ++ LF ++ LF ++ "B" ++ LF ++ LF)%string = ["A"; "B"; EmptyString]
  /\ paragraph_chunks ("A" ++ LF ++ LF ++ "B" ++ LF ++ LF)%string "notes.md"
     = [ {| content := "A"; source := "notes.md"; chunk_id := 0 |};
         {| content := "B"; source := "notes.md"; chunk_id := 1 |} ].
Proof. split; reflexivity. Qed.

Lemma kept_chunks_none : forall filename ps start,
  forallb blank ps = true ->
  flat_map (kept filename) (Py.enumerate_from start ps) = [].
Proof.
  intros filename ps. induction ps as [|p ps IH]; intros start Hb; simpl; [reflexivity|].
  simpl in Hb. apply andb_true_iff in Hb. destruct Hb as [Hp Hps].
  rewrite strip_truthy, Hp. simpl. apply IH. exact Hps.
Qed.

Lemma kept_chunks_some : forall filename ps start,
  forallb blank ps = false ->
  exists c cs,
    flat_map (kept filename) (Py.enumerate_from start ps) = c :: cs
    /\ start <= chunk_id c.
Proof.
  intros filename ps. induction ps as [|p ps IH]; intros start Hb; simpl in *;
    [discriminate|].
  rewrite strip_truthy. destruct (blank p) eqn:Ep; simpl in *.
  - destruct (IH (S start) Hb) as [c [cs [E Hc]]].
    exists c, cs. split; [exact E | lia].
  - eexists. eexists. split; [reflexivity|]. simpl. lia.
Qed.

(** The ordinals count up from [start] exactly when the discarded
    paragraphs all come last. *)
Lemma kept_chunks_consecutive : forall filename ps start,
  counts_from start
    (map chunk_id (flat_map (kept filename) (Py.enumerate_from start ps)))
  = discards_trail ps.
Proof.
  intros filename ps. induction ps as [|p ps IH]; intros start; simpl; [reflexivity|].
  rewrite strip_truthy. destruct (blank p) eqn:Ep; simpl.
  - destruct (forallb blank ps) eqn:Eb.
    + rewrite kept_chunks_none by exact Eb. reflexivity.
    + destruct (kept_chunks_some filename ps (S start) Eb) as [c [cs [E Hc]]].
      rewrite E. simpl.
      destruct (Nat.eqb_spec (chunk_id c) start); [lia | reflexivity].
  - rewrite Nat.eqb_refl. simpl. apply IH.
Qed.

(** The chunk at place [j] carries [j] plus the number of paragraphs
    discarded before its own. *)
Lemma kept_chunks_ordinal : forall filename ps start j c,
  nth_error (flat_map (kept filename) (Py.enumerate_from start ps)) j = Some c ->
  start <= chunk_id c
  /\ chunk_id c - start = j + discarded (firstn (chunk_id c - start) ps).
Proof.
  intros filename ps. induction ps as [|p ps IH]; intros start j c H; simpl in H.
  - destruct j; discriminate.
  - rewrite strip_truthy in H. destruct (blank p) eqn:Ep; simpl in H.
    + destruct (IH _ _ _ H) as [Hle Hc]. split; [lia|].
      replace (chunk_id c - start) with (S (chunk_id c - S start)) by lia.
      unfold discarded in *. simpl. rewrite Ep. simpl. lia.
    + destruct j as [|j]; simpl in H.
      * injection H as <-. simpl. rewrite Nat.sub_diag. split; [lia | reflexivity].
      * destruct (IH _ _ _ H) as [Hle Hc]. split; [lia|].
        replace (chunk_id c - start) with (S (chunk_id c - S start)) by lia.
        unfold discarded in *. simpl. rewrite Ep. lia.
Qed.

(** C6 (amended): [_split_into_chunks] appends to the index the chunks
    of one document, which are determined as follows.  The text is cut
    at every run of two or more line breaks, each run taken whole
    ([paragraphs]).  A paragraph is retained exactly when it is not
    blank (empty or whitespace only).  The chunk of a retained paragraph
    holds the stripped paragraph, the file name, and as ordinal the
    position of the paragraph among all paragraphs of the text, the
    discarded ones included.  Chunks come in order of appearance, so
    ordinals increase strictly.  The ordinal of the chunk at place [j]
    is [j] plus the number of paragraphs discarded before it; so the
    ordinals are 0, 1, 2, ... exactly when no discarded paragraph comes
    before a retained one, in particular when none is discarded. *)
Theorem split_into_chunks_ordinals : forall self text filename,
  chunks (_split_into_chunks self text filename)
  = chunks self ++ paragraph_chunks text filename
  /\ paragraphs text (split_paragraphs text)
  /\ (forall c,
        In c (paragraph_chunks text filename)
        <-> exists i para,
              nth_error (split_paragraphs text) i = Some para
              /\ blank para = false
              /\ c = {| content := Py.strip para; source := filename; chunk_id := i |})
  /\ StronglySorted lt (map chunk_id (paragraph_chunks text filename))
  /\ (forall j c,
        nth_error (paragraph_chunks text filename) j = Some c ->
        chunk_id c
        = j + discarded (firstn (chunk_id c) (split_paragraphs text)))
  /\ consecutive_ordinals (paragraph_chunks text filename)
     = discards_trail (split_paragraphs text)
  /\ (existsb blank (split_paragraphs text) = false ->
      map chunk_id (paragraph_chunks text filename)
      = seq 0 (List.length (split_paragraphs text))).
Proof.
  intros self text filename.
  assert (E : paragraph_chunks text filename
              = flat_map (kept filename) (Py.enumerate_from 0 (split_paragraphs text))).
  { unfold paragraph_chunks, Py.enumerate. apply flat_map_ext.
    intros [i para]. reflexivity. }
  split; [reflexivity|].
  split; [apply re_split_paragraphs|].
  unfold consecutive_ordinals. rewrite E. split; [|split; [|split; [|split]]].
  - intros c. apply (kept_chunks_in filename (split_paragraphs text) 0 c).
  - apply kept_chunks_increasing.
  - intros j c H. apply kept_chunks_ordinal in H. destruct H as [_ H].
    rewrite Nat.sub_0_r in H. exact H.
  - apply kept_chunks_consecutive.
  - apply kept_chunks_all.
Qed.

(** *** Search *)

(** [index_directory] leaves a built index whenever it found a chunk
    and the fit returned a matrix of one row per chunk. *)
Lemma index_directory_built : forall fit_transform files self,
  (forall contents tfidf query,
     fit_transform contents = Some tfidf ->
     List.length (cosine_similarity tfidf query) = List.length contents) ->
  index_directory fit_transform init files = Indexed self ->
  chunks self <> [] ->
  built self.
Proof.
  intros fit_transform files self Hfit. unfold index_directory.
  set (self' := fold_left _ files init). clearbody self'.
  destruct (chunks self') as [|c cs] eqn:E.
  - intros [= <-] Hne. congruence.
  - destruct (fit_transform _) as [tfidf|] eqn:Ef; [|discriminate].
    intros [= <-] _. split; [discriminate|]. exists tfidf. split; [reflexivity|].
    intros query. simpl. rewrite (Hfit _ _ query Ef). simpl.
    rewrite length_map. reflexivity.
Qed.

(** The reading of the specification: of two neighbours with the same
    score, the one with the smaller (source, ordinal) comes first. *)
Definition fragment_before (a b : Chunk) : bool :=
  String.ltb (source a) (source b)
  || (String.eqb (source a) (source b) && (chunk_id a <? chunk_id b)).

Fixpoint ties_ascending (results : list SearchResult) : bool :=
  match results with
  | r1 :: rest =>
      match rest with
      | r2 :: _ =>
          (if Qeq_bool (score r1) (score r2)
           then fragment_before (chunk r1) (chunk r2) else true)
          && ties_ascending rest
      | [] => true
      end
  | [] => true
  end.

(** The corpus of the specification's scenario.  After stop words and
    terms of fewer than two fragments are dropped, [mammals] is the
    only term left, so for the query [mammals] both fragments of [a.md]
    score 1 and the fragment of [b.md] scores 0. *)
Definition mammals_corpus : list (string * string) :=
  [ ("a.md", ("Cats are mammals." ++ LF ++ LF ++ "Dogs are mammals too.")%string);
    ("b.md", "Paris is a city.") ].

Definition mammals_index : LocalRetriever :=
  retriever_after
    (index_directory
       (fun _ => Some {| cosine_similarity := fun _ => [1; 1; 0]%Q |})
       init mammals_corpus).

Lemma mammals_index_built : built mammals_index.
Proof.
  split; [discriminate|]. eexists. split; [reflexivity|]. intros query. reflexivity.
Qed.

(** The same scores on three documents of one fragment each, walked
    in the order [b.md], [a.md], [c.md] (as when [b.md] lies in the
    directory itself, [a.md] in a sub-directory of it and [c.md] in a
    sub-directory of that one; the source of a chunk is the file name
    without its directory): the fragments of [b.md] and [a.md] score 1
    and the one of [c.md] scores 0. *)
Definition bats_corpus : list (string * string) :=
  [ ("b.md", "Bats are mammals.");
    ("a.md", "Cats are mammals.");
    ("c.md", "Paris is a city.") ].

Definition bats_index : LocalRetriever :=
  retriever_after
    (index_directory
       (fun _ => Some {| cosine_similarity := fun _ => [1; 1; 0]%Q |})
       init bats_corpus).

Lemma bats_index_built : built bats_index.
Proof.
  split; [discriminate|]. eexists. split; [reflexivity|]. intros query. reflexivity.
Qed.

(** The two ascending orders of the scores 1, 1, 0. *)
Lemma sorts_tied_scores : forall argsort,
  sorts argsort ->
  argsort [1; 1; 0]%Q = [2; 0; 1] \/ argsort [1; 1; 0]%Q = [2; 1; 0].
Proof.
  intros argsort H. destruct (H [1; 1; 0]%Q) as [Hp Hs]. simpl in Hp.
  pose proof (Permutation_length Hp) as Hl.
  destruct (argsort [1; 1; 0]%Q) as [|a [|b [|c [|d l]]]]; try discriminate Hl.
  assert (Ha : In a [0; 1; 2]) by (apply (Permutation_in _ Hp); simpl; auto).
  assert (Hb : In b [0; 1; 2]) by (apply (Permutation_in _ Hp); simpl; auto).
  assert (Hc : In c [0; 1; 2]) by (apply (Permutation_in _ Hp); simpl; auto).
  assert (Hnd : NoDup [a; b; c]).
  { apply (Permutation_NoDup (Permutation_sym Hp)). apply (seq_NoDup 3 0). }
  assert (Hab : a <> b /\ a <> c /\ b <> c).
  { inversion Hnd as [|? ? Ha' Hnd']; subst.
    inversion Hnd' as [|? ? Hb' _]; subst. simpl in Ha', Hb'. intuition congruence. }
  apply StronglySorted_inv in Hs. destruct Hs as [Hs1 Hf1].
  apply Forall_cons_iff in Hf1. destruct Hf1 as [Sab Hf1].
  apply Forall_cons_iff in Hf1. destruct Hf1 as [Sac _].
  apply StronglySorted_inv in Hs1. destruct Hs1 as [_ Hf2].
  apply Forall_cons_iff in Hf2. destruct Hf2 as [Sbc _].
  simpl in Ha, Hb, Hc.
  destruct Ha as [<- | [<- | [<- | []]]];
    destruct Hb as [<- | [<- | [<- | []]]];
    destruct Hc as [<- | [<- | [<- | []]]];
    try (exfalso; lia);
    try (exfalso; unfold Qle in *; simpl in *; lia);
    auto.
Qed.

(** The order of equal scores is the sorting routine's, not the
    fragments': whatever order a sorting routine gives the two equal
    scores, one of the two indexes is answered against the order by
    (source, ordinal). *)
Lemma no_sorter_orders_ties_by_ordinal : forall argsort,
  sorts argsort ->
  (exists results,
     search argsort mammals_index "mammals" 2 = Some results
     /\ ties_ascending results = false)
  \/ (exists results,
        search argsort bats_index "mammals" 2 = Some results
        /\ ties_ascending results = false).
Proof.
  intros argsort H.
  assert (Em : forall self,
            self = mammals_index \/ self = bats_index ->
            search argsort self "mammals" 2
            = Py.sequence
                (map (result_at [1; 1; 0]%Q (chunks self))
                   (rev (Py.slice_from (- 2) (argsort [1; 1; 0]%Q))))).
  { intros self [-> | ->]; reflexivity. }
  destruct (sorts_tied_scores argsort H) as [E | E]; [left | right];
    eexists; (split; [rewrite Em, E by auto; reflexivity | reflexivity]).
Qed.

(** C3, counterexample: NumPy sorts the tied scores 1, 1, 0 into the
    positions 2, 0, 1 or 2, 1, 0.  In the first case the corpus of the
    specification's scenario is answered with the fragment of ordinal
    1 before the one of ordinal 0 of the same source.  In the second
    case the index walked in the order [b.md], [a.md], [c.md] is
    answered with the fragment of [b.md] before the one of [a.md].
    Either way equal scores come out against the order by (source,
    ordinal). *)
Lemma search_ties_not_ascending :
  (insertion_argsort [1; 1; 0]%Q = [2; 0; 1]
   /\ search insertion_argsort mammals_index "mammals" 2
      = Some [ {| score := 1%Q;
                  chunk := {| content := "Dogs are mammals too.";
                              source := "a.md"; chunk_id := 1 |} |};
               {| score := 1%Q;
                  chunk := {| content := "Cats are mammals.";
                              source := "a.md"; chunk_id := 0 |} |} ]
   /\ ties_ascending
        [ {| score := 1%Q;
             chunk := {| content := "Dogs are mammals too.";
                         source := "a.md"; chunk_id := 1 |} |};
          {| score := 1%Q;
             chunk := {| content := "Cats are mammals.";
                         source := "a.md"; chunk_id := 0 |} |} ] = false)
  /\ (reversing_argsort [1; 1; 0]%Q = [2; 1; 0]
      /\ search reversing_argsort bats_index "mammals" 2
         = Some [ {| score := 1%Q;
                     chunk := {| content := "Bats are mammals.";
                                 source := "b.md"; chunk_id := 0 |} |};
                  {| score := 1%Q;
                     chunk := {| content := "Cats are mammals.";
                                 source := "a.md"; chunk_id := 0 |} |} ]
      /\ ties_ascending
           [ {| score := 1%Q;
                chunk := {| content := "Bats are mammals.";
                            source := "b.md"; chunk_id := 0 |} |};
             {| score := 1%Q;
                chunk := {| content := "Cats are mammals.";
                            source := "a.md"; chunk_id := 0 |} |} ] = false).
Proof. repeat split; reflexivity. Qed.

(** C3 (amended): on a built index of [n] fragments, for a positive
    [k] and an [argsort] that lists the positions in ascending order
    of score, [search] returns exactly [min k n] results in order of
    non-increasing score.  The results are the chunks at the last
    [min k n] positions [argsort] lists, in reverse, each with its
    score: distinct positions, and the best ones, for a position that
    is not returned scores no more than any returned one.  Equal
    scores come in the reverse of the order [argsort] gives them,
    which NumPy does not fix; no order by (source, ordinal) is
    imposed.  The result depends on the chunks, the scores of the
    query and [k] alone, so repeating the call on an unchanged index
    repeats the result. *)
Theorem search_order : forall argsort self query k,
  sorts argsort ->
  built self ->
  (0 < k)%Z ->
  exists ps results,
    search argsort self query k = Some results
    /\ List.length results = Nat.min (Z.to_nat k) (List.length (chunks self))
    /\ StronglySorted (fun r1 r2 => (score r2 <= score r1)%Q) results
    /\ Forall2 (shows (chunks self)) ps results
    /\ Forall (fun p => nth_error (scores_for self query) (fst p) = Some (snd p)) ps
    /\ map fst ps = rev (Py.slice_from (- k) (argsort (scores_for self query)))
    /\ NoDup (map fst ps)
    /\ (forall i s,
          nth_error (scores_for self query) i = Some s ->
          In (i, s) ps \/ Forall (fun r => (s <= score r)%Q) results)
    /\ (forall self',
          built self' ->
          chunks self' = chunks self ->
          scores_for self' query = scores_for self query ->
          search argsort self' query k = Some results).
Proof.
  intros argsort self query k Hsort Hb Hk.
  destruct (search_picked argsort self query k Hsort Hb) as [results [Hs Hall]].
  exists (picked argsort (scores_for self query) k), results.
  split; [exact Hs|]. split; [|split; [|split; [|split; [|split; [|split; [|split]]]]]].
  - rewrite <- (Forall2_length Hall), picked_length by assumption.
    rewrite built_scores_length by exact Hb. reflexivity.
  - eapply shows_scores_descend; [exact Hall|]. apply picked_descending. exact Hsort.
  - exact Hall.
  - apply picked_lookup. exact Hsort.
  - apply picked_positions.
  - apply picked_positions_distinct. exact Hsort.
  - intros i s Hi.
    destruct (picked_best argsort (scores_for self query) k i s Hsort Hi) as [Hin | Hle];
      [left; exact Hin | right; eapply shows_scores_above; eassumption].
  - intros self' Hb' Hc Hsc. rewrite <- Hs. apply search_same_index; assumption.
Qed.

Lemma search_order_witness :
  exists ps results,
    search insertion_argsort mammals_index "mammals" 2 = Some results
    /\ List.length results
       = Nat.min (Z.to_nat 2) (List.length (chunks mammals_index))
    /\ StronglySorted (fun r1 r2 => (score r2 <= score r1)%Q) results
    /\ Forall2 (shows (chunks mammals_index)) ps results
    /\ Forall (fun p => nth_error (scores_for mammals_index "mammals") (fst p)
                        = Some (snd p)) ps
    /\ map fst ps
       = rev (Py.slice_from (- 2)
                (insertion_argsort (scores_for mammals_index "mammals")))
    /\ NoDup (map fst ps)
    /\ (forall i s,
          nth_error (scores_for mammals_index "mammals") i = Some s ->
          In (i, s) ps \/ Forall (fun r => (s <= score r)%Q) results)
    /\ (forall self',
          built self' ->
          chunks self' = chunks mammals_index ->
          scores_for self' "mammals" = scores_for mammals_index "mammals" ->
          search insertion_argsort self' "mammals" 2 = Some results).
Proof.
  apply (search_order insertion_argsort mammals_index "mammals" 2
           insertion_argsort_sorts mammals_index_built).
  reflexivity.
Defined.

(** C8: on a built index of [n] fragments, for a positive [k],
    [search] returns exactly [min k n] results whatever the scores are
    and whatever ascending order [argsort] lists them in.  Nothing is
    filtered by score: when every fragment scores 0 the results are
    [min k n] fragments of score 0, and when [k] is at least [n] every
    fragment of the index is among the results. *)
Theorem search_fills_k_slots : forall argsort self query k,
  sorts argsort ->
  built self ->
  (0 < k)%Z ->
  exists results,
    search argsort self query k = Some results
    /\ List.length results = Nat.min (Z.to_nat k) (List.length (chunks self))
    /\ (Forall (fun s => (s == 0)%Q) (scores_for self query) ->
        Forall (fun r => (score r == 0)%Q) results)
    /\ ((Z.of_nat (List.length (chunks self)) <= k)%Z ->
        forall c, In c (chunks self) -> In c (map chunk results)).
Proof.
  intros argsort self query k Hsort Hb Hk.
  destruct (search_picked argsort self query k Hsort Hb) as [results [Hs Hall]].
  exists results. split; [exact Hs|]. clear Hs.
  pose proof (built_scores_length self query Hb) as Hlen.
  pose proof (picked_lookup argsort (scores_for self query) k Hsort) as Hlook.
  split; [|split].
  - rewrite <- (Forall2_length Hall), picked_length, Hlen by assumption. reflexivity.
  - intros Hz. rewrite Forall_forall in Hz.
    revert Hlook. induction Hall as [|p r ps rs [Hsc _] Hall IH]; intros Hlook.
    + constructor.
    + inversion Hlook as [|? ? Hp Hps]; subst.
      constructor; [|apply IH; exact Hps].
      rewrite Hsc. apply Hz. eapply nth_error_In. exact Hp.
  - intros Hn c Hc. apply In_nth_error in Hc. destruct Hc as [i Hi].
    assert (Hi' : i < List.length (scores_for self query)).
    { rewrite Hlen. apply nth_error_Some. congruence. }
    destruct (nth_error (scores_for self query) i) as [s|] eqn:Es;
      [|apply nth_error_None in Es; lia].
    eapply shows_covers; [exact Hall | | exact Hi].
    apply picked_complete; [exact Hsort | left; rewrite Hlen; exact Hn | exact Es].
Qed.

(** An index none of whose fragments shares a term with the query. *)
Definition unrelated_index : LocalRetriever :=
  retriever_after
    (index_directory
       (fun _ => Some {| cosine_similarity := fun _ => [0; 0; 0]%Q |})
       init mammals_corpus).

Lemma unrelated_index_built : built unrelated_index.
Proof.
  split; [discriminate|]. eexists. split; [reflexivity|]. intros query. reflexivity.
Qed.

Lemma search_fills_k_slots_witness :
  exists results,
    search insertion_argsort unrelated_index "zebra" 2 = Some results
    /\ List.length results = Nat.min (Z.to_nat 2) (List.length (chunks unrelated_index))
    /\ (Forall (fun s => (s == 0)%Q) (scores_for unrelated_index "zebra") ->
        Forall (fun r => (score r == 0)%Q) results)
    /\ ((Z.of_nat (List.length (chunks unrelated_index)) <= 2)%Z ->
        forall c, In c (chunks unrelated_index) -> In c (map chunk results)).
Proof.
  apply (search_fills_k_slots insertion_argsort unrelated_index "zebra" 2
           insertion_argsort_sorts unrelated_index_built).
  reflexivity.
Defined.

(* ================================================================= *)
(** ** Steps of the workflow *)

Module Steps.

(** The state after a node's updates. *)
Definition routed (w : World) (t : nat) (st : AgentState) : AgentState :=
  apply_updates st [Classification (router_module w t (question st)); Errors []].

Lemma superstep_single : forall w t st n,
  superstep w t st [n]
  = match node_action n w t st with
    | None => inl (NodeRaised n)
    | Some us =>
        match successors n (apply_updates st us) with
        | None => inl (NoDestination n)
        | Some ts =>
            if distinct (map key_of us)
            then inr (apply_updates st us, triggered ts)
            else inl InvalidUpdate
        end
    end.
Proof.
  intros w t st n. unfold superstep, run_tasks, run_task.
  destruct (node_action n w t st) as [us|]; [|reflexivity].
  destruct (successors n (apply_updates st us)) as [ts|]; [|reflexivity].
  rewrite !app_nil_r. reflexivity.
Qed.

Lemma successors_router : forall st,
  successors router st
  = match route_question st with
    | Some label =>
        match lookup label [ ("generate_sql", To generate_sql);
                             ("retrieve_docs", To retrieve_docs);
                             ("hybrid_flow", To retrieve_docs) ] with
        | Some target => Some [target]
        | None => None
        end
    | None => None
    end.
Proof.
  intros st. unfold successors, branch_targets, branch_target.
  cbn [conditional_edges filter node_eqb fst snd map path path_map].
  destruct (route_question st) as [label|]; [|reflexivity].
  cbn [Py.sequence].
  destruct (lookup label _); reflexivity.
Qed.

Lemma route_question_cases : forall st,
  (exists c, classification st = Some c /\ c = "SQL"
             /\ route_question st = Some "generate_sql")
  \/ (exists c, classification st = Some c /\ c = "RAG"
                /\ route_question st = Some "retrieve_docs")
  \/ (exists c, classification st = Some c /\ c = "Hybrid"
                /\ route_question st = Some "hybrid_flow")
  \/ ((forall c, classification st = Some c ->
                 c <> "SQL" /\ c <> "RAG" /\ c <> "Hybrid")
      /\ route_question st = None).
Proof.
  intros st. unfold route_question.
  destruct (classification st) as [c|].
  - destruct (String.eqb_spec c "SQL"); [left; eauto|].
    destruct (String.eqb_spec c "RAG"); [right; left; eauto|].
    destruct (String.eqb_spec c "Hybrid"); [right; right; left; eauto|].
    right; right; right. split; [|reflexivity].
    intros c' [= <-]. auto.
  - right; right; right. split; [|reflexivity]. intros c [=].
Qed.

Lemma step_router : forall w t st,
  superstep w t st [router]
  = match route_question (routed w t st) with
    | Some label =>
        if String.eqb label "generate_sql" then inr (routed w t st, [generate_sql])
        else inr (routed w t st, [retrieve_docs])
    | None => inl (NoDestination router)
    end.
Proof.
  intros w t st. rewrite superstep_single. simpl node_action. unfold router_node.
  fold (routed w t st). rewrite successors_router.
  destruct (route_question_cases (routed w t st))
    as [[c [_ [_ H]]] | [[c [_ [_ H]]] | [[c [_ [_ H]]] | [_ H]]]];
    rewrite H; reflexivity.
Qed.


Definition is_hybrid (st : AgentState) : bool :=
  match classification st with
  | Some c => String.eqb c "Hybrid"
  | None => false
  end.

Lemma successors_retrieve_docs : forall st,
  successors retrieve_docs st
  = Some (if is_hybrid st
          then [To synthesize; To generate_sql]
          else [To synthesize; To synthesize]).
Proof.
  intros st. unfold successors, branch_targets, branch_target.
  cbn [conditional_edges edges static_targets filter node_eqb fst snd map
       path path_map].
  unfold route_after_retrieval, is_hybrid.
  destruct (classification st) as [c|]; [|reflexivity].
  destruct (String.eqb c "Hybrid"); reflexivity.
Qed.

Lemma step_retrieve_docs : forall w t st,
  superstep w t st [retrieve_docs]
  = match retriever_node w t st with
    | Some us =>
        inr (apply_updates st us,
             if is_hybrid st then [generate_sql; synthesize] else [synthesize])
    | None => inl (NodeRaised retrieve_docs)
    end.
Proof.
  intros w t st. rewrite superstep_single. simpl node_action.
  unfold retriever_node.
  destruct (search (np_argsort w) (retriever w) (question st) 3) as [results|];
    [|reflexivity].
  rewrite successors_retrieve_docs.
  change (is_hybrid (apply_updates st [RetrievedDocs (map (format_doc w) results)]))
    with (is_hybrid st).
  destruct (is_hybrid st); reflexivity.
Qed.

Definition generated (w : World) (t : nat) (st : AgentState) : AgentState :=
  apply_updates st
    [SqlQuery (sql_generator_module w t (question_with_context st) (schema w));
     Errors []].

Definition synthesized (w : World) (t : nat) (st : AgentState) (context : string)
    : AgentState :=
  apply_updates st
    [FinalAnswer (synthesizer_module w t (question st) context
                    (sql_query st) (format_hint st))].

Lemma step_generate_sql : forall w t st,
  superstep w t st [generate_sql] = inr (generated w t st, [execute_sql]).
Proof. reflexivity. Qed.

Lemma step_synthesize : forall w t st,
  superstep w t st [synthesize]
  = match synthesis_context w st with
    | Some context => inr (synthesized w t st context, [])
    | None => inl (NodeRaised synthesize)
    end.
Proof.
  intros w t st. rewrite superstep_single. simpl node_action.
  unfold synthesizer_node. destruct (synthesis_context w st); reflexivity.
Qed.

(** The step in which the left-over edge from [retrieve_docs] and the
    conditional edge both fired. *)
Lemma step_generate_sql_synthesize : forall w t st,
  superstep w t st [generate_sql; synthesize]
  = match synthesis_context w st with
    | Some context =>
        inr (apply_updates (generated w t st)
               [FinalAnswer (synthesizer_module w t (question st) context
                               (sql_query st) (format_hint st))],
             [execute_sql])
    | None => inl (NodeRaised synthesize)
    end.
Proof.
  intros w t st. unfold superstep, run_tasks, run_task.
  cbn [node_action]. unfold synthesizer_node.
  destruct (synthesis_context w st); reflexivity.
Qed.

(** Without result rows the synthesizer does not call [json.dumps]. *)
Lemma synthesis_context_no_rows : forall w st,
  sql_results st = None \/ sql_results st = Some [] ->
  synthesis_context w st
  = Some (Py.strip
            match retrieved_docs st with
            | Some (d :: ds) =>
                ("Retrieved Documents:" ++ LF ++ Py.join (LF ++ LF) (d :: ds))%string
            | _ => EmptyString
            end).
Proof.
  intros w st [H | H]; unfold synthesis_context; rewrite H;
    destruct (retrieved_docs st) as [[|d ds]|]; reflexivity.
Qed.

Lemma successors_execute_sql : forall st,
  successors execute_sql st
  = Some [match errors st with
          | _ :: _ => if (retry_count st <? 2)%Z then To generate_sql else To synthesize
          | [] => To synthesize
          end].
Proof.
  intros st. unfold successors, branch_targets, branch_target.
  cbn [conditional_edges edges static_targets filter node_eqb fst snd map
       path path_map].
  unfold check_sql_execution.
  destruct (errors st); [reflexivity|].
  destruct (retry_count st <? 2)%Z; reflexivity.
Qed.

Lemma step_execute_sql : forall w t st,
  superstep w t st [execute_sql]
  = match sql_query st with
    | None => inl (NodeRaised execute_sql)
    | Some query =>
        match database w t query with
        | Executed rows description =>
            let st' :=
              apply_updates st
                [SqlResults
                   (map (dict_zip (match description with
                                   | Some names => names
                                   | None => []
                                   end)) rows)] in
            inr (st',
                 match errors st with
                 | _ :: _ =>
                     if (retry_count st <? 2)%Z then [generate_sql] else [synthesize]
                 | [] => [synthesize]
                 end)
        | SqliteError text =>
            inr (apply_updates st
                   [Errors (errors st ++ [text]); RetryCount (retry_count st + 1)%Z],
                 if (retry_count st + 1 <? 2)%Z then [generate_sql] else [synthesize])
        end
    end.
Proof.
  intros w t st. rewrite superstep_single. simpl node_action.
  unfold sql_executor_node, run_sqlite_query.
  destruct (sql_query st) as [query|]; [|reflexivity].
  destruct (database w t query) as [rows description | text].
  - rewrite successors_execute_sql. cbn [map key_of distinct existsb negb andb].
    cbv zeta.
    replace (match description with
             | Some (d :: ds) => d :: ds
             | Some [] => []
             | None => []
             end)
      with (match description with Some names => names | None => [] end)
      by (destruct description as [[|d ds]|]; reflexivity).
    change (errors (apply_updates st [SqlResults _])) with (errors st).
    change (retry_count (apply_updates st [SqlResults _])) with (retry_count st).
    destruct (errors st); [reflexivity|].
    destruct (retry_count st <? 2)%Z; reflexivity.
  - rewrite successors_execute_sql.
    change (errors (apply_updates st [Errors (errors st ++ [text]);
                                      RetryCount (retry_count st + 1)%Z]))
      with (errors st ++ [text]).
    change (retry_count (apply_updates st [Errors (errors st ++ [text]);
                                           RetryCount (retry_count st + 1)%Z]))
      with (retry_count st + 1)%Z.
    destruct (errors st ++ [text]) eqn:E; [destruct (errors st); discriminate|].
    destruct (retry_count st + 1 <? 2)%Z; reflexivity.
Qed.

End Steps.

Module Invariant.

Import Steps.

(** [phase active st]: what holds of the state when the nodes [active]
    are about to run, in a run that [run_batch] started. *)
Inductive phase : list Node -> AgentState -> Prop :=
| at_router : forall st,
    retry_count st = 0%Z -> errors st = [] ->
    phase [router] st
| at_retrieve_docs : forall st,
    retry_count st = 0%Z -> errors st = [] ->
    phase [retrieve_docs] st
| at_generate_sql : forall st,
    (0 <= retry_count st <= 1)%Z ->
    Z.of_nat (List.length (errors st)) = retry_count st ->
    phase [generate_sql] st
| at_generate_sql_synthesize : forall st,
    retry_count st = 0%Z -> errors st = [] ->
    phase [generate_sql; synthesize] st
| at_execute_sql : forall st,
    (0 <= retry_count st <= 1)%Z -> errors st = [] -> sql_query st <> None ->
    phase [execute_sql] st
| at_synthesize : forall st,
    (0 <= retry_count st <= 2)%Z ->
    List.length (errors st) <= 1 ->
    (Z.of_nat (List.length (errors st)) <= retry_count st)%Z ->
    phase [synthesize] st
| at_end : forall st,
    (0 <= retry_count st <= 2)%Z ->
    List.length (errors st) <= 1 ->
    (Z.of_nat (List.length (errors st)) <= retry_count st)%Z ->
    phase [] st.

(** A bound on the number of steps still to come. *)
Definition steps_left (active : list Node) (st : AgentState) : nat :=
  match active with
  | [router] => 7
  | [retrieve_docs] => 6
  | [generate_sql] => if (retry_count st <? 1)%Z then 5 else 3
  | [generate_sql; synthesize] => if (retry_count st <? 1)%Z then 5 else 3
  | [execute_sql] => if (retry_count st <? 1)%Z then 4 else 2
  | [synthesize] => 1
  | _ => 0
  end.

Lemma phase_bounds : forall active st,
  phase active st ->
  (0 <= retry_count st <= 2)%Z
  /\ List.length (errors st) <= 1
  /\ (Z.of_nat (List.length (errors st)) <= retry_count st)%Z.
Proof.
  intros active st H.
  inversion H as [? Hr He | ? Hr He | ? Hr He | ? Hr He | ? Hr He Hq
                 | ? Hr He Hl | ? Hr He Hl]; subst;
    try rewrite He; simpl; try lia.
Qed.

(** One step from a configuration in its phase: it leads to a
    configuration in its phase with fewer steps left, or the run fails
    because the router's label has no destination, the retriever
    raised, or [json.dumps] raised in the synthesizer. *)
Lemma phase_progress : forall w t active st,
  phase active st ->
  active <> [] ->
  (exists st' active',
     superstep w t st active = inr (st', active')
     /\ phase active' st'
     /\ steps_left active' st' < steps_left active st)
  \/ superstep w t st active = inl (NoDestination router)
  \/ superstep w t st active = inl (NodeRaised retrieve_docs)
  \/ superstep w t st active = inl (NodeRaised synthesize).
Proof.
  intros w t active st H Hne.
  inversion H as [? Hr He | ? Hr He | ? Hr He | ? Hr He | ? Hr He Hq
                 | ? Hr He Hl | ? Hr He Hl]; subst.
  - rewrite step_router.
    destruct (route_question_cases (routed w t st))
      as [[c [_ [_ R]]] | [[c [_ [_ R]]] | [[c [_ [_ R]]] | [_ R]]]];
      rewrite R; [left | left | left | right; left; reflexivity].
    + eexists _, _. split; [reflexivity|]. split.
      * apply at_generate_sql; simpl; rewrite Hr; simpl; lia.
      * simpl. rewrite Hr. simpl. lia.
    + eexists _, _. split; [reflexivity|]. split.
      * apply at_retrieve_docs; [exact Hr | reflexivity].
      * simpl. lia.
    + eexists _, _. split; [reflexivity|]. split.
      * apply at_retrieve_docs; [exact Hr | reflexivity].
      * simpl. lia.
  - rewrite step_retrieve_docs. unfold retriever_node.
    destruct (search (np_argsort w) (retriever w) (question st) 3) as [results|];
      [left | right; right; left; reflexivity].
    eexists _, _. split; [reflexivity|].
    destruct (is_hybrid st); split.
    + apply at_generate_sql_synthesize; simpl; assumption.
    + simpl. rewrite Hr. simpl. lia.
    + apply at_synthesize; simpl; rewrite ?Hr, ?He; simpl; lia.
    + simpl. lia.
  - left. rewrite step_generate_sql. eexists _, _. split; [reflexivity|]. split.
    + apply at_execute_sql; simpl; [exact Hr | reflexivity | discriminate].
    + simpl. destruct (retry_count st <? 1)%Z; lia.
  - rewrite step_generate_sql_synthesize.
    destruct (synthesis_context w st) as [context|];
      [left | right; right; right; reflexivity].
    eexists _, _. split; [reflexivity|]. split.
    + apply at_execute_sql; simpl; [lia | reflexivity | discriminate].
    + simpl. rewrite Hr. simpl. lia.
  - left. rewrite step_execute_sql.
    destruct (sql_query st) as [query|]; [|congruence].
    destruct (database w t query) as [rows description | text].
    + eexists _, _. split; [reflexivity|]. rewrite He. split.
      * apply at_synthesize; simpl; rewrite ?He; simpl; lia.
      * simpl. destruct (retry_count st <? 1)%Z; lia.
    + eexists _, _. split; [reflexivity|].
      destruct (Z.ltb_spec (retry_count st + 1) 2) as [Hlt | Hge]; split.
      * apply at_generate_sql; simpl; rewrite ?He; simpl; lia.
      * simpl. destruct (Z.ltb_spec (retry_count st) 1);
          destruct (Z.ltb_spec (retry_count st + 1) 1); lia.
      * apply at_synthesize; simpl; rewrite ?He; simpl; lia.
      * simpl. destruct (Z.ltb_spec (retry_count st) 1); lia.
  - rewrite step_synthesize.
    destruct (synthesis_context w st) as [context|];
      [left | right; right; right; reflexivity].
    eexists _, _. split; [reflexivity|]. split.
    + apply at_end; simpl; assumption.
    + simpl. lia.
  - congruence.
Qed.

Lemma initial_phase : forall item, phase [entry_point] (initial_state item).
Proof. intros item. apply at_router; reflexivity. Qed.

Lemma reachable_phase : forall w item cfg,
  reachable w (initial_state item) cfg ->
  phase (active cfg) (state cfg).
Proof.
  intros w item cfg H. induction H as [|cfg st' active' H IH Hne Hstep].
  - apply initial_phase.
  - simpl.
    destruct (phase_progress w (step_no cfg) _ _ IH Hne)
      as [[st2 [active2 [E [Hp _]]]] | [E | [E | E]]];
      rewrite E in Hstep; [|discriminate|discriminate|discriminate].
    injection Hstep as <- <-. exact Hp.
Qed.

(** How a run can end: with a final state, with the exception of a
    node, or because the router's label has no destination.  A run
    never ends on the step bound or on two writes to one key. *)
Definition run_ends (outcome : Outcome) : Prop :=
  (exists final_state,
     outcome = Completed final_state
     /\ (0 <= retry_count final_state <= 2)%Z
     /\ List.length (errors final_state) <= 1)
  \/ (exists n, outcome = Failed (NodeRaised n))
  \/ outcome = Failed (NoDestination router).

Lemma pregel_ends : forall w fuel t active st,
  phase active st ->
  steps_left active st <= fuel ->
  run_ends (pregel w fuel t st active).
Proof.
  intros w fuel. induction fuel as [|fuel IH]; intros t active st Hp Hfuel.
  - destruct active as [|n rest].
    + left. exists st. destruct (phase_bounds _ _ Hp) as [? [? ?]]. simpl. auto.
    + exfalso. inversion Hp; subst; simpl in Hfuel;
        try destruct (retry_count st <? 1)%Z; lia.
  - destruct active as [|n rest].
    + left. exists st. destruct (phase_bounds _ _ Hp) as [? [? ?]]. simpl. auto.
    + cbn [pregel].
      destruct (phase_progress w t (n :: rest) st Hp ltac:(discriminate))
        as [[st' [active' [E [Hp' Hlt]]]] | [E | [E | E]]]; rewrite E.
      * apply IH; [exact Hp' | lia].
      * right; right; reflexivity.
      * right; left; eexists; reflexivity.
      * right; left; eexists; reflexivity.
Qed.

(** [app.invoke] on the initial state of [run_batch] always ends
    within the step bound. *)
Lemma app_invoke_ends : forall w item,
  run_ends (app_invoke w (initial_state item)).
Proof.
  intros w item. unfold app_invoke. apply pregel_ends.
  - apply initial_phase.
  - simpl. unfold recursion_limit. lia.
Qed.

(** The configuration after [n] steps, if the run gets that far. *)
Fixpoint run_to (w : World) (n : nat) (cfg0 : Config) : option Config :=
  match n with
  | 0 => Some cfg0
  | S n' =>
      match run_to w n' cfg0 with
      | Some cfg =>
          match active cfg with
          | [] => None
          | _ :: _ =>
              match superstep w (step_no cfg) (state cfg) (active cfg) with
              | inr (st', active') =>
                  Some {| step_no := S (step_no cfg); state := st'; active := active' |}
              | inl _ => None
              end
          end
      | None => None
      end
  end.

Lemma run_to_reachable : forall w initial n cfg,
  run_to w n (start initial) = Some cfg -> reachable w initial cfg.
Proof.
  intros w initial n. induction n as [|n IH]; intros cfg H; simpl in H.
  - injection H as <-. constructor.
  - destruct (run_to w n (start initial)) as [cfg'|]; [|discriminate].
    destruct (active cfg') as [|a rest] eqn:Ea; [discriminate|].
    destruct (superstep w (step_no cfg') (state cfg') (a :: rest))
      as [f | [st' active']] eqn:Es; [discriminate|].
    injection H as <-. apply reach_step; [apply IH; reflexivity | | ].
    + rewrite Ea. discriminate.
    + rewrite Ea. exact Es.
Qed.

End Invariant.


(* ================================================================= *)
(** ** The workflow *)

Import Steps Invariant.

(** *** Worlds used as examples *)

(** A world whose router always answers [label], whose generator echoes
    the question it is given, whose store rejects every query, and
    whose retriever holds the mammals corpus. *)
Definition failing_world (label : string) : World :=
  {| router_module := fun _ _ => label;
     sql_generator_module := fun _ question _ => question;
     synthesizer_module := fun _ _ context _ _ => context;
     schema := "CREATE TABLE [Orders]";
     database := fun _ _ => SqliteError "no such table: Order";
     retriever := mammals_index;
     np_argsort := insertion_argsort;
     json_dumps := fun _ => Some "[]";
     str_score := fun _ => "1.0" |}.

Definition orders_item : Item :=
  {| item_question := "How many orders are there?";
     item_format_hint := None;
     item_id := Some "q1" |}.

(** The configuration of the failing run when the executor is entered
    for the second time. *)
Definition second_attempt : Config :=
  {| step_no := 4;
     state :=
       {| question := "How many orders are there?";
          format_hint := None;
          classification := Some "SQL";
          sql_query :=
            Some "Previous attempt failed with error: no such table: Order. Please correct the query. Original question: How many orders are there?";
          sql_results := None;
          retrieved_docs := None;
          errors := [];
          retry_count := 1;
          final_answer := None |};
     active := [execute_sql] |}.

(** The configuration of the failing run after its second failed
    execution. *)
Definition after_second_failure : Config :=
  {| step_no := 5;
     state :=
       {| question := "How many orders are there?";
          format_hint := None;
          classification := Some "SQL";
          sql_query :=
            Some "Previous attempt failed with error: no such table: Order. Please correct the query. Original question: How many orders are there?";
          sql_results := None;
          retrieved_docs := None;
          errors := ["no such table: Order"];
          retry_count := 2;
          final_answer := None |};
     active := [synthesize] |}.

(** *** Retry bound *)

(** C1, counterexample: every query fails.  After the router, the
    first generation, the first failed execution and the second
    generation, the executor is entered with retry counter 1, which is
    below 2; its failure leads to [synthesize], not to [generate_sql],
    with the counter at 2. *)
Lemma second_failure_goes_to_synthesize :
  reachable (failing_world "SQL") (initial_state orders_item) second_attempt
  /\ active second_attempt = [execute_sql]
  /\ retry_count (state second_attempt) = 1%Z
  /\ sql_executor_node (failing_world "SQL") 4 (state second_attempt)
     = Some [Errors ["no such table: Order"]; RetryCount 2%Z]
  /\ check_sql_execution (state after_second_failure) = Some "synthesize"
  /\ superstep (failing_world "SQL") 4 (state second_attempt) [execute_sql]
     = inr (state after_second_failure, [synthesize]).
Proof.
  split; [apply (run_to_reachable _ _ 4); reflexivity|].
  repeat split; reflexivity.
Qed.

(** C1 (amended): in every run that [run_batch] starts the retry
    counter stays between 0 and 2, and [app.invoke] ends within the
    step bound: with a final state whose counter is at most 2, with
    the exception of a node, or because the router's label has no
    destination; never on the step bound.  A failed execution first
    adds 1 to the counter and appends the failure text to the error
    log; the next node is [generate_sql] when the counter so
    incremented is below 2 and [synthesize] otherwise. *)
Theorem retry_counter_bound : forall w item cfg,
  reachable w (initial_state item) cfg ->
  (0 <= retry_count (state cfg) <= 2)%Z
  /\ run_ends (app_invoke w (initial_state item))
  /\ (forall t st query text,
        sql_query st = Some query ->
        database w t query = SqliteError text ->
        superstep w t st [execute_sql]
        = inr (apply_updates st
                 [Errors (errors st ++ [text]); RetryCount (retry_count st + 1)%Z],
               if (retry_count st + 1 <? 2)%Z then [generate_sql] else [synthesize])).
Proof.
  intros w item cfg H. split; [|split].
  - apply (phase_bounds (active cfg)). eapply reachable_phase. exact H.
  - apply app_invoke_ends.
  - intros t st query text Hq Hd. rewrite step_execute_sql, Hq, Hd. reflexivity.
Qed.

Lemma retry_counter_bound_witness :
  (0 <= retry_count (state (start (initial_state orders_item))) <= 2)%Z
  /\ run_ends (app_invoke (failing_world "SQL") (initial_state orders_item))
  /\ (forall t st query text,
        sql_query st = Some query ->
        database (failing_world "SQL") t query = SqliteError text ->
        superstep (failing_world "SQL") t st [execute_sql]
        = inr (apply_updates st
                 [Errors (errors st ++ [text]); RetryCount (retry_count st + 1)%Z],
               if (retry_count st + 1 <? 2)%Z then [generate_sql] else [synthesize])).
Proof.
  apply (retry_counter_bound (failing_world "SQL") orders_item
           (start (initial_state orders_item))).
  apply reach_start.
Defined.

(** *** Error log *)

(** C9: in every configuration of a run that [run_batch] starts the
    error log holds at most one entry, and no more entries than the
    retry counter says.  The router and the generator both write the
    empty log, and a failed execution appends exactly one entry. *)
Theorem error_log_at_most_one : forall w item cfg,
  reachable w (initial_state item) cfg ->
  List.length (errors (state cfg)) <= 1
  /\ (Z.of_nat (List.length (errors (state cfg))) <= retry_count (state cfg))%Z
  /\ (forall t st, exists c, router_node w t st = Some [Classification c; Errors []])
  /\ (forall t st, exists q, sql_generator_node w t st = Some [SqlQuery q; Errors []])
  /\ (forall t st query text,
        sql_query st = Some query ->
        database w t query = SqliteError text ->
        sql_executor_node w t st
        = Some [Errors (errors st ++ [text]); RetryCount (retry_count st + 1)%Z]).
Proof.
  intros w item cfg H.
  destruct (phase_bounds _ _ (reachable_phase _ _ _ H)) as [_ [H1 H2]].
  repeat split; try assumption.
  - intros t st. eexists. reflexivity.
  - intros t st. eexists. reflexivity.
  - intros t st query text Hq Hd.
    unfold sql_executor_node, run_sqlite_query. rewrite Hq, Hd. reflexivity.
Qed.

Lemma after_second_failure_reachable :
  reachable (failing_world "SQL") (initial_state orders_item) after_second_failure.
Proof. apply (run_to_reachable _ _ 5). reflexivity. Qed.

Lemma error_log_at_most_one_witness :
  List.length (errors (state after_second_failure)) <= 1
  /\ (Z.of_nat (List.length (errors (state after_second_failure)))
      <= retry_count (state after_second_failure))%Z
  /\ (forall t st, exists c,
        router_node (failing_world "SQL") t st = Some [Classification c; Errors []])
  /\ (forall t st, exists q,
        sql_generator_node (failing_world "SQL") t st = Some [SqlQuery q; Errors []])
  /\ (forall t st query text,
        sql_query st = Some query ->
        database (failing_world "SQL") t query = SqliteError text ->
        sql_executor_node (failing_world "SQL") t st
        = Some [Errors (errors st ++ [text]); RetryCount (retry_count st + 1)%Z]).
Proof.
  apply (error_log_at_most_one (failing_world "SQL") orders_item after_second_failure).
  exact after_second_failure_reachable.
Defined.

(** *** Dispatch *)

(** C10: a label other than [SQL], [RAG] and [Hybrid] makes
    [route_question] return nothing; the router's conditional edge then
    has no destination, and a run whose classifier gives such a label
    fails in its first step instead of entering any branch. *)
Theorem unknown_label_has_no_successor : forall w st label,
  router_module w 0 (question st) = label ->
  label <> "SQL" -> label <> "RAG" -> label <> "Hybrid" ->
  (forall st', classification st' = Some label -> route_question st' = None)
  /\ (forall st', classification st' = Some label -> successors router st' = None)
  /\ superstep w 0 st [router] = inl (NoDestination router)
  /\ app_invoke w st = Failed (NoDestination router).
Proof.
  intros w st label Hl H1 H2 H3.
  assert (R : forall st', classification st' = Some label -> route_question st' = None).
  { intros st' Hc. unfold route_question. rewrite Hc.
    apply String.eqb_neq in H1, H2, H3. rewrite H1, H2, H3. reflexivity. }
  assert (S0 : superstep w 0 st [router] = inl (NoDestination router)).
  { rewrite step_router, R; [reflexivity|]. simpl. rewrite Hl. reflexivity. }
  repeat split.
  - exact R.
  - intros st' Hc. rewrite successors_router, R by exact Hc. reflexivity.
  - exact S0.
  - unfold app_invoke, recursion_limit, entry_point. cbn [pregel].
    rewrite S0. reflexivity.
Qed.

Lemma unknown_label_has_no_successor_witness :
  (forall st', classification st' = Some "Other" -> route_question st' = None)
  /\ (forall st', classification st' = Some "Other" -> successors router st' = None)
  /\ superstep (failing_world "Other") 0 (initial_state orders_item) [router]
     = inl (NoDestination router)
  /\ app_invoke (failing_world "Other") (initial_state orders_item)
     = Failed (NoDestination router).
Proof.
  apply (unknown_label_has_no_successor (failing_world "Other")
           (initial_state orders_item) "Other");
    [reflexivity | discriminate | discriminate | discriminate].
Defined.

(** C2, what the graph does: [retrieve_docs] has a plain edge to
    [synthesize] besides its conditional edge, and both fire.  After
    retrieval on a question classified [Hybrid] the next step therefore
    runs [synthesize] together with [generate_sql], before any query
    was generated or executed; on a question classified [RAG] the next
    step runs [synthesize] alone. *)
Theorem retrieval_edges_both_fire : forall w t st us,
  retriever_node w t st = Some us ->
  In (retrieve_docs, To synthesize) edges
  /\ (classification st = Some "Hybrid" ->
      successors retrieve_docs (apply_updates st us)
      = Some [To synthesize; To generate_sql]
      /\ superstep w t st [retrieve_docs]
         = inr (apply_updates st us, [generate_sql; synthesize]))
  /\ (classification st = Some "RAG" ->
      superstep w t st [retrieve_docs] = inr (apply_updates st us, [synthesize])).
Proof.
  intros w t st us Hus. split; [left; reflexivity|].
  assert (Hc : classification (apply_updates st us) = classification st).
  { unfold retriever_node in Hus.
    destruct (search (np_argsort w) (retriever w) (question st) 3); [|discriminate].
    injection Hus as <-. reflexivity. }
  split; intros Hcl.
  - split.
    + rewrite successors_retrieve_docs. unfold is_hybrid. rewrite Hc, Hcl. reflexivity.
    + rewrite step_retrieve_docs, Hus. unfold is_hybrid. rewrite Hcl. reflexivity.
  - rewrite step_retrieve_docs, Hus. unfold is_hybrid. rewrite Hcl. reflexivity.
Qed.

(** The nodes run in each step of a run, until it ends. *)
Fixpoint schedule (w : World) (fuel t : nat) (st : AgentState) (active : list Node)
    : list (list Node) :=
  match active, fuel with
  | [], _ => []
  | _ :: _, 0 => []
  | _ :: _, S fuel' =>
      active ::
      match superstep w t st active with
      | inr (st', active') => schedule w fuel' (S t) st' active'
      | inl _ => []
      end
  end.

(** A world that classifies every question as [label] and whose store
    answers every query with one row. *)
Definition answering_world (label : string) : World :=
  {| router_module := fun _ _ => label;
     sql_generator_module := fun _ _ _ => "SELECT COUNT(*) AS n FROM Orders";
     synthesizer_module := fun _ _ context _ _ => context;
     schema := "CREATE TABLE [Orders]";
     database := fun _ _ => Executed [[SqlInteger 830]] (Some ["n"]);
     retriever := mammals_index;
     np_argsort := insertion_argsort;
     json_dumps := fun _ => Some "[{n: 830}]";
     str_score := fun _ => "1.0" |}.

Definition after_classification (label : string) : AgentState :=
  apply_updates (initial_state orders_item) [Classification label; Errors []].

(** What the retriever returns for the example question. *)
Definition mammals_updates : list Update :=
  Eval vm_compute in
    match retriever_node (answering_world "Hybrid") 1 (after_classification "Hybrid") with
    | Some us => us
    | None => []
    end.

Lemma retrieval_edges_both_fire_witness :
  In (retrieve_docs, To synthesize) edges
  /\ (classification (after_classification "Hybrid") = Some "Hybrid" ->
      successors retrieve_docs
        (apply_updates (after_classification "Hybrid") mammals_updates)
      = Some [To synthesize; To generate_sql]
      /\ superstep (answering_world "Hybrid") 1 (after_classification "Hybrid")
           [retrieve_docs]
         = inr (apply_updates (after_classification "Hybrid") mammals_updates,
                [generate_sql; synthesize]))
  /\ (classification (after_classification "Hybrid") = Some "RAG" ->
      superstep (answering_world "Hybrid") 1 (after_classification "Hybrid")
        [retrieve_docs]
      = inr (apply_updates (after_classification "Hybrid") mammals_updates,
             [synthesize])).
Proof.
  apply (retrieval_edges_both_fire (answering_world "Hybrid") 1
           (after_classification "Hybrid") mammals_updates).
  reflexivity.
Defined.

(** The steps of a run on a question classified [Hybrid], and on one
    classified [RAG]. *)
Lemma hybrid_schedule :
  schedule (answering_world "Hybrid") recursion_limit 0
    (initial_state orders_item) [entry_point]
  = [ [router]; [retrieve_docs]; [generate_sql; synthesize];
      [execute_sql]; [synthesize] ]
  /\ schedule (answering_world "RAG") recursion_limit 0
       (initial_state orders_item) [entry_point]
     = [ [router]; [retrieve_docs]; [synthesize] ].
Proof. split; reflexivity. Qed.

(** *** Generation *)

(** The template as the specification words it, with a full stop after
    the question. *)
Definition spec_template (prior_errors : list string) (question : string) : string :=
  ("Previous attempt failed with error: " ++ Py.join LF prior_errors
   ++ ". Please correct the query. Original question: " ++ question ++ ".")%string.

(** The configuration of the failing run when the generator is entered
    for the second time. *)
Definition first_retry : Config :=
  {| step_no := 3;
     state :=
       {| question := "How many orders are there?";
          format_hint := None;
          classification := Some "SQL";
          sql_query := Some "How many orders are there?";
          sql_results := None;
          retrieved_docs := None;
          errors := ["no such table: Order"];
          retry_count := 1;
          final_answer := None |};
     active := [generate_sql] |}.

(** C4, counterexample: on the first retry of the failing run the
    generator is given the template without a full stop after the
    question, which is not the text the specification quotes. *)
Lemma retry_question_has_no_final_stop :
  reachable (failing_world "SQL") (initial_state orders_item) first_retry
  /\ question_with_context (state first_retry)
     = "Previous attempt failed with error: no such table: Order. Please correct the query. Original question: How many orders are there?"
  /\ spec_template (errors (state first_retry)) (question (state first_retry))
     = "Previous attempt failed with error: no such table: Order. Please correct the query. Original question: How many orders are there?."
  /\ String.eqb (question_with_context (state first_retry))
       (spec_template (errors (state first_retry)) (question (state first_retry)))
     = false.
Proof.
  split; [apply (run_to_reachable _ _ 3); reflexivity|].
  repeat split; reflexivity.
Qed.

(** C4 (amended): with an empty error log the generator is given the
    question unchanged; otherwise it is given [Previous attempt failed
    with error: ] followed by the logged errors joined by line breaks,
    [. Please correct the query. Original question: ] and the question,
    with nothing after the question.  Every generation step writes the
    empty error log, so after a generation step and a failed execution
    the log holds that one failure only, and this is what the next
    generation step is given. *)
Theorem generator_question_and_error_log : forall w t st,
  (errors st = [] -> question_with_context st = question st)
  /\ (errors st <> [] ->
      question_with_context st
      = ("Previous attempt failed with error: " ++ Py.join LF (errors st)
         ++ ". Please correct the query. Original question: " ++ question st)%string)
  /\ sql_generator_node w t st
     = Some [SqlQuery (sql_generator_module w t (question_with_context st) (schema w));
             Errors []]
  /\ superstep w t st [generate_sql] = inr (generated w t st, [execute_sql])
  /\ errors (generated w t st) = []
  /\ (forall query text st2 next,
        sql_query (generated w t st) = Some query ->
        database w (S t) query = SqliteError text ->
        superstep w (S t) (generated w t st) [execute_sql] = inr (st2, next) ->
        errors st2 = [text]
        /\ question_with_context st2
           = ("Previous attempt failed with error: " ++ text
              ++ ". Please correct the query. Original question: " ++ question st)%string).
Proof.
  intros w t st.
  split; [intros He; unfold question_with_context; rewrite He; reflexivity|].
  split.
  { intros He. unfold question_with_context.
    destruct (errors st); [congruence | reflexivity]. }
  split; [reflexivity|]. split; [reflexivity|]. split; [reflexivity|].
  intros query text st2 next Hq Hd Hstep.
  rewrite step_execute_sql, Hq, Hd in Hstep. injection Hstep as <- _.
  split; reflexivity.
Qed.

(** *** Query execution *)

(** C5: [run_sqlite_query] returns either rows together with a list of
    column names, or the store's error text together with [None] for
    the column names, never a mixture, and the second component is
    [None] exactly in the second case.  The rows are the fetched ones in
    their order and the column names those of the description in their
    order; without a description the list of column names is empty and
    the rows are those fetched, so a statement that yields neither
    gives zero columns and zero rows.
    The error text is the store's own.  [sql_executor_node] takes the
    failure branch exactly when the column names are [None]. *)
Theorem run_sqlite_query_result : forall (store : Store) (query : string),
  ((exists rows column_names,
      run_sqlite_query store query = (Rows rows, Some column_names))
   \/ (exists text,
         run_sqlite_query store query = (Message text, None)))
  /\ (snd (run_sqlite_query store query) = None
      <-> exists text, store query = SqliteError text
                       /\ fst (run_sqlite_query store query) = Message text)
  /\ (forall rows,
        store query = Executed rows None ->
        run_sqlite_query store query = (Rows rows, Some []))
  /\ (store query = Executed [] None ->
      run_sqlite_query store query = (Rows [], Some []))
  /\ (forall rows column_names,
        store query = Executed rows (Some column_names) ->
        run_sqlite_query store query = (Rows rows, Some column_names))
  /\ (forall text,
        store query = SqliteError text ->
        run_sqlite_query store query = (Message text, None))
  /\ (forall w t st,
        sql_query st = Some query ->
        database w t = store ->
        match snd (run_sqlite_query store query) with
        | None =>
            exists text,
              store query = SqliteError text
              /\ sql_executor_node w t st
                 = Some [Errors (errors st ++ [text]);
                         RetryCount (retry_count st + 1)%Z]
        | Some column_names =>
            exists rows,
              fst (run_sqlite_query store query) = Rows rows
              /\ sql_executor_node w t st
                 = Some [SqlResults (map (dict_zip column_names) rows)]
        end).
Proof.
  intros store query. unfold sql_executor_node, run_sqlite_query.
  destruct (store query) as [rows description | text] eqn:E.
  - split; [left; eauto|]. split.
    { simpl. split; [discriminate | intros [text [H _]]; discriminate]. }
    split; [intros rows' [= -> ->]; reflexivity|].
    split; [intros [= -> ->]; reflexivity|].
    split; [intros rows' names [= -> ->]; destruct names; reflexivity|].
    split; [intros text [=]|].
    intros w t st Hq Hd. rewrite Hq, Hd, E. simpl. eauto.
  - split; [right; eauto|]. split.
    { simpl. split; [eauto | reflexivity]. }
    split; [intros rows [=]|].
    split; [intros [=]|].
    split; [intros rows names [=]|].
    split; [intros text' [= ->]; reflexivity|].
    intros w t st Hq Hd. rewrite Hq, Hd, E. simpl. eauto.
Qed.

(** A store with one table, for examples: a count, a statement that
    returns nothing, and an error for everything else. *)
Definition orders_store : Store :=
  fun query =>
    if String.eqb query "SELECT COUNT(*) AS n FROM Orders"
    then Executed [[SqlInteger 830]] (Some ["n"])
    else if String.eqb query "DELETE FROM Orders WHERE 0"
    then Executed [] None
    else SqliteError "near SELEC: syntax error".

Example run_sqlite_query_examples :
  run_sqlite_query orders_store "SELECT COUNT(*) AS n FROM Orders"
  = (Rows [[SqlInteger 830]], Some ["n"])
  /\ run_sqlite_query orders_store "DELETE FROM Orders WHERE 0" = (Rows [], Some [])
  /\ run_sqlite_query orders_store "SELEC 1"
     = (Message "near SELEC: syntax error", None).
Proof. repeat split; reflexivity. Qed.

(* ================================================================= *)
(** ** The batch driver *)

Section BatchFacts.

Variable Json : Type.
Variable json_loads : string -> Loads Json.
Variable world : nat -> World.

(** [line_of j line questions]: [line] is what the loop body writes for
    record [j] of [questions], whose run completed. *)
Definition line_of (questions : list Item) (first j : nat) (line : OutputJson Json)
    : Prop :=
  exists item final_state,
    nth_error questions j = Some item
    /\ app_invoke (world (first + j)) (initial_state item) = Completed final_state
    /\ output_json Json json_loads (first + j) item final_state = Some line.

(** [raised_by item i why]: the loop body for [item], record [i],
    raised: in [app.invoke], or in the parse of the final answer. *)
Definition raised_by (item : Item) (i : nat) (why : Uncaught) : Prop :=
  match why with
  | InvokeRaised f => app_invoke (world i) (initial_state item) = Failed f
  | LoadsRaised =>
      exists final_state,
        app_invoke (world i) (initial_state item) = Completed final_state
        /\ output_json Json json_loads i item final_state = None
  end.

Lemma run_batch_from_spec : forall questions first f_out lines ending,
  run_batch_from Json json_loads world first questions f_out = (lines, ending) ->
  exists new,
    lines = f_out ++ new
    /\ (forall j line, nth_error new j = Some line -> line_of questions first j line)
    /\ match ending with
       | Done =>
           List.length new = List.length questions
       | Raised at_index why =>
           at_index = first + List.length new
           /\ exists item,
                nth_error questions (List.length new) = Some item
                /\ raised_by item at_index why
       end.
Proof.
  induction questions as [|item rest IH]; intros first f_out lines ending H;
    simpl in H.
  - injection H as <- <-. exists []. rewrite app_nil_r.
    split; [reflexivity|]. split; [|reflexivity].
    intros j line Hj. destruct j; discriminate.
  - destruct (app_invoke (world first) (initial_state item)) as [final|f] eqn:E.
    + destruct (output_json Json json_loads first item final) as [line0|] eqn:Eo.
      * apply IH in H. destruct H as [new [Hl [Hn He]]].
        exists (line0 :: new).
        split; [rewrite Hl, <- app_assoc; reflexivity|]. split.
        -- intros [|j] line Hj; simpl in Hj.
           ++ injection Hj as <-. exists item, final.
              rewrite Nat.add_0_r. auto.
           ++ destruct (Hn j line Hj) as [item' [final' [H1 [H2 H3]]]].
              exists item', final'. rewrite Nat.add_succ_r. auto.
        -- destruct ending as [|at_index why]; simpl.
           ++ rewrite He. reflexivity.
           ++ destruct He as [-> He]. split; [lia | exact He].
      * injection H as <- <-. exists []. rewrite app_nil_r.
        split; [reflexivity|]. split.
        -- intros j line Hj. destruct j; discriminate.
        -- simpl. rewrite Nat.add_0_r. split; [reflexivity|]. exists item.
           split; [reflexivity|]. exists final. auto.
    + injection H as <- <-. exists []. rewrite app_nil_r.
      split; [reflexivity|]. split.
      * intros j line Hj. destruct j; discriminate.
      * simpl. rewrite Nat.add_0_r. split; [reflexivity|]. exists item. auto.
Qed.

(** The parse leaves the [try] block uncaught only on a non-empty
    final answer that [json.loads] rejects with something else than
    [JSONDecodeError]. *)
Lemma output_json_raises : forall i item final_state,
  output_json Json json_loads i item final_state = None
  <-> exists answer,
        final_answer final_state = Some answer
        /\ answer <> EmptyString
        /\ json_loads answer = OtherError.
Proof.
  intros i item final_state. unfold output_json. split.
  - destruct (final_answer final_state) as [[|c text]|]; try discriminate.
    destruct (json_loads (String c text)) eqn:E; try discriminate.
    intros _. exists (String c text). repeat split; [discriminate | exact E].
  - intros [answer [-> [Hne E]]]. destruct answer as [|c text]; [congruence|].
    rewrite E. reflexivity.
Qed.

End BatchFacts.

(** A parser for examples: a text is taken for JSON when it opens with
    a brace, and an opening bracket stands for a text nested too
    deeply for the parser's recursion. *)
Definition braces_only (text : string) : Loads string :=
  match text with
  | String "{" _ => Loaded text
  | String "[" _ => OtherError
  | _ => DecodeError
  end.

Definition cities_item : Item :=
  {| item_question := "Which city is mentioned?";
     item_format_hint := Some "str";
     item_id := None |}.

(** Collaborators whose classifier answers outside the three labels
    for the first record of a batch only. *)
Definition first_label_unknown (i : nat) : World :=
  match i with
  | 0 => failing_world "Other"
  | S _ => answering_world "RAG"
  end.

(** C7, counterexample: the run of the first of two records fails (its
    label has no destination).  Nothing catches that: the batch ends
    there, no line is written, and the second record is never
    processed. *)
Lemma run_failure_ends_batch :
  app_invoke (first_label_unknown 0) (initial_state orders_item)
  = Failed (NoDestination router)
  /\ run_batch string braces_only first_label_unknown [orders_item; cities_item]
     = ([], Raised 0 (InvokeRaised (NoDestination router))).
Proof. split; reflexivity. Qed.

(** C7 (amended): [run_batch] writes one line per record, in input
    order, for as long as the loop body returns.  When the final
    answer of a run is missing, empty or rejected by [json.loads] with
    [JSONDecodeError], the line is the error record: the identifier of
    the input record, or [error_] followed by the 1-based position
    when it has none, the fixed error text, and the raw final answer;
    when [json.loads] returns, the line is the parsed answer; in both
    cases processing continues with the next record.  When
    [app.invoke] raises for a record (a node raised, or the router's
    label has no destination), or [json.loads] raises anything else
    than [JSONDecodeError], the batch ends at that record with the
    lines of the records before it.  So there is one line per record
    exactly when every run completes and no parse raises such an
    exception. *)
Theorem run_batch_lines : forall (Json : Type) (json_loads : string -> Loads Json)
    (world : nat -> World) (questions : list Item) lines ending,
  run_batch Json json_loads world questions = (lines, ending) ->
  (forall j line,
     nth_error lines j = Some line ->
     exists item final_state,
       nth_error questions j = Some item
       /\ app_invoke (world j) (initial_state item) = Completed final_state
       /\ output_json Json json_loads j item final_state = Some line)
  /\ (forall i item final_state,
        output_json Json json_loads i item final_state
        = match final_answer final_state with
          | Some (String c text) =>
              match json_loads (String c text) with
              | Loaded parsed => Some (Answer parsed)
              | DecodeError =>
                  Some (ErrorRecord
                          match item_id item with
                          | Some id => GivenId id
                          | None => Placeholder ("error_" ++ Py.str_of_nat (i + 1))%string
                          end
                          "Failed to generate valid JSON response."
                          (final_answer final_state))
              | OtherError => None
              end
          | _ =>
              Some (ErrorRecord
                      match item_id item with
                      | Some id => GivenId id
                      | None => Placeholder ("error_" ++ Py.str_of_nat (i + 1))%string
                      end
                      "Failed to generate valid JSON response."
                      (final_answer final_state))
          end)
  /\ (ending = Done -> List.length lines = List.length questions)
  /\ (forall i why,
        ending = Raised i why ->
        List.length lines = i
        /\ i < List.length questions
        /\ exists item,
             nth_error questions i = Some item
             /\ match why with
                | InvokeRaised f =>
                    app_invoke (world i) (initial_state item) = Failed f
                    /\ ((exists n, f = NodeRaised n) \/ f = NoDestination router)
                | LoadsRaised =>
                    exists final_state answer,
                      app_invoke (world i) (initial_state item)
                      = Completed final_state
                      /\ final_answer final_state = Some answer
                      /\ json_loads answer = OtherError
                end)
  /\ (ending = Done
      <-> forall j item,
            nth_error questions j = Some item ->
            exists final_state line,
              app_invoke (world j) (initial_state item) = Completed final_state
              /\ output_json Json json_loads j item final_state = Some line).
Proof.
  intros Json json_loads world questions lines ending H.
  apply run_batch_from_spec in H. destruct H as [new [Hl [Hn He]]].
  simpl in Hl. subst lines.
  assert (Hraised : forall i why,
             ending = Raised i why ->
             List.length new = i
             /\ exists item,
                  nth_error questions i = Some item
                  /\ raised_by Json json_loads world item i why).
  { intros i why ->. simpl in He. destruct He as [-> He]. auto. }
  split; [|split; [|split; [|split]]].
  - intros j line Hj. apply (Hn j line Hj).
  - intros i item final_state. unfold output_json, error_record.
    destruct (final_answer final_state) as [[|c text]|]; reflexivity.
  - intros ->. exact He.
  - intros i why Hi. destruct (Hraised i why Hi) as [Hlen [item [Hq Hf]]].
    split; [exact Hlen|]. split; [apply nth_error_Some; congruence|].
    exists item. split; [exact Hq|].
    destruct why as [f|]; simpl in Hf.
    + split; [exact Hf|].
      destruct (app_invoke_ends (world i) item) as [[final [Hc _]] | [[n Hc] | Hc]];
        rewrite Hf in Hc; [discriminate | injection Hc; eauto | injection Hc; auto].
    + destruct Hf as [final [Hc Ho]].
      apply output_json_raises in Ho. destruct Ho as [answer [Ha [_ Hj]]].
      exists final, answer. auto.
  - split.
    + intros ->. intros j item Hq.
      assert (Hj : j < List.length new).
      { rewrite He. apply nth_error_Some. congruence. }
      destruct (nth_error new j) as [line|] eqn:El;
        [|apply nth_error_None in El; lia].
      destruct (Hn j line El) as [item' [final [H1 [H2 H3]]]].
      assert (item' = item) by congruence. subst item'.
      exists final, line. auto.
    + intros Hall. destruct ending as [|i why]; [reflexivity|].
      destruct (Hraised i why eq_refl) as [_ [item [Hq Hf]]].
      destruct (Hall i item Hq) as [final [line [Hc Ho]]].
      destruct why as [f|]; simpl in Hf; [congruence|].
      destruct Hf as [final' [Hc' Ho']]. congruence.
Qed.

(** Collaborators for a batch of two: the synthesizer answers the first
    record with a JSON object and the second with plain text. *)
Definition second_answer_unparseable (i : nat) : World :=
  {| router_module := fun _ _ => "RAG";
     sql_generator_module := fun _ question _ => question;
     synthesizer_module :=
       fun _ _ _ _ _ =>
         match i with
         | 0 => "{}"
         | S _ => "Paris"
         end;
     schema := "CREATE TABLE [Orders]";
     database := fun _ _ => SqliteError "no such table: Order";
     retriever := mammals_index;
     np_argsort := insertion_argsort;
     json_dumps := fun _ => Some "[]";
     str_score := fun _ => "1.0" |}.

Lemma run_batch_lines_witness :
  run_batch string braces_only second_answer_unparseable [orders_item; cities_item]
  = ([Answer "{}";
      ErrorRecord (Placeholder "error_2")
        "Failed to generate valid JSON response." (Some "Paris")],
     Done)
  /\ (Done = Done ->
      List.length
        [Answer "{}";
         ErrorRecord (Json := string) (Placeholder "error_2")
           "Failed to generate valid JSON response." (Some "Paris")]
      = List.length [orders_item; cities_item]).
Proof.
  split; [reflexivity|].
  apply (run_batch_lines string braces_only second_answer_unparseable
           [orders_item; cities_item] _ Done eq_refl).
Defined.

(** Collaborators whose synthesizer answers the first record with a
    text the parser gives up on. *)
Definition first_answer_too_deep (i : nat) : World :=
  {| router_module := fun _ _ => "RAG";
     sql_generator_module := fun _ question _ => question;
     synthesizer_module :=
       fun _ _ _ _ _ =>
         match i with
         | 0 => "[[[[[[[["
         | S _ => "{}"
         end;
     schema := "CREATE TABLE [Orders]";
     database := fun _ _ => SqliteError "no such table: Order";
     retriever := mammals_index;
     np_argsort := insertion_argsort;
     json_dumps := fun _ => Some "[]";
     str_score := fun _ => "1.0" |}.

(** An exception of [json.loads] that is not a [JSONDecodeError] ends
    the batch as well, although the run completed. *)
Example parse_failure_ends_batch :
  (exists final_state,
     app_invoke (first_answer_too_deep 0) (initial_state orders_item)
     = Completed final_state
     /\ final_answer final_state = Some "[[[[[[[[")
  /\ run_batch string braces_only first_answer_too_deep [orders_item; cities_item]
     = ([], Raised 0 LoadsRaised).
Proof. split; [eexists; split; reflexivity | reflexivity]. Qed.

(* ================================================================= *)
(** * Further properties of the retriever *)

Module RetrieverFacts.

(** ** [search] outside its intended range of [k] *)

Lemma slice_from_nonneg_length : forall (A : Type) (start : Z) (l : list A),
  (0 <= start)%Z ->
  List.length (Py.slice_from start l) = List.length l - Z.to_nat start.
Proof.
  intros A start l H. unfold Py.slice_from.
  destruct (Z.ltb_spec start 0); [lia|].
  rewrite length_skipn. lia.
Qed.

(** The chunk lists of the documents [index_directory] reads. *)
Definition md_chunks (files : list (string * string)) : list Chunk :=
  flat_map
    (fun '(file, text) =>
       if Py.endswith file ".md" then paragraph_chunks text file else [])
    files.

Lemma walk_chunks : forall files self,
  chunks
    (fold_left
       (fun r '(file, text) =>
          if Py.endswith file ".md" then _split_into_chunks r text file else r)
       files self)
  = chunks self ++ md_chunks files
  /\ tfidf_matrix
       (fold_left
          (fun r '(file, text) =>
             if Py.endswith file ".md" then _split_into_chunks r text file else r)
          files self)
     = tfidf_matrix self.
Proof.
  induction files as [|[file text] files IH]; intros self; simpl.
  - rewrite app_nil_r. auto.
  - destruct (IH (if Py.endswith file ".md"
                  then _split_into_chunks self text file else self)) as [H1 H2].
    rewrite H1, H2.
    destruct (Py.endswith file ".md"); simpl; [rewrite <- app_assoc|]; auto.
Qed.


(** ** Whitespace *)

Lemma lstrip_head : forall s,
  match Py.lstrip s with
  | EmptyString => True
  | String c _ => Py.isspace c = false
  end.
Proof.
  induction s as [|c r IH]; simpl; [exact I|].
  destruct (Py.isspace c) eqn:E; [exact IH | exact E].
Qed.

Lemma lstrip_fixed : forall c r,
  Py.isspace c = false -> Py.lstrip (String c r) = String c r.
Proof. intros c r H. simpl. rewrite H. reflexivity. Qed.

Lemma rstrip_head : forall c r,
  Py.rstrip (String c r) = EmptyString
  \/ exists r', Py.rstrip (String c r) = String c r'.
Proof.
  intros c r. simpl. destruct (Py.rstrip r).
  - destruct (Py.isspace c); eauto.
  - eauto.
Qed.

Lemma rstrip_idempotent : forall s, Py.rstrip (Py.rstrip s) = Py.rstrip s.
Proof.
  induction s as [|c r IH]; [reflexivity|]. simpl.
  destruct (Py.rstrip r) as [|c' r'] eqn:E.
  - destruct (Py.isspace c) eqn:Ec; simpl; [reflexivity|]. rewrite Ec. reflexivity.
  - change (Py.rstrip (String c (String c' r')))
      with (match Py.rstrip (String c' r') with
            | EmptyString =>
                if Py.isspace c then EmptyString else String c EmptyString
            | r0 => String c r0
            end).
    rewrite IH. reflexivity.
Qed.

Lemma strip_idempotent : forall s, Py.strip (Py.strip s) = Py.strip s.
Proof.
  intros s. unfold Py.strip.
  pose proof (lstrip_head s) as H.
  destruct (Py.lstrip s) as [|c r]; [reflexivity|].
  destruct (rstrip_head c r) as [E | [r' E]]; rewrite E; [reflexivity|].
  rewrite lstrip_fixed by exact H. rewrite <- E. apply rstrip_idempotent.
Qed.

(** ** Blank lines *)

Lemma no_blank_line_tail : forall c r,
  no_blank_line (String c r) = true -> no_blank_line r = true.
Proof. intros c r H. simpl in H. apply andb_true_iff in H. tauto. Qed.

Lemma lstrip_no_blank_line : forall s,
  no_blank_line s = true -> no_blank_line (Py.lstrip s) = true.
Proof.
  induction s as [|c r IH]; intros H; [reflexivity|]. simpl.
  destruct (Py.isspace c); [|exact H].
  apply IH. eapply no_blank_line_tail. exact H.
Qed.

Lemma rstrip_no_blank_line : forall s,
  no_blank_line s = true -> no_blank_line (Py.rstrip s) = true.
Proof.
  induction s as [|c r IH]; intros H; [reflexivity|].
  pose proof (IH (no_blank_line_tail _ _ H)) as IH'.
  simpl in H. apply andb_true_iff in H. destruct H as [H1 H2].
  simpl. destruct (Py.rstrip r) as [|c' r'] eqn:E.
  - destruct (Py.isspace c); [reflexivity|].
    simpl. rewrite andb_false_r. reflexivity.
  - assert (Hhead : starts_with_newline r = is_newline c').
    { destruct r as [|a r0]; [discriminate|].
      destruct (rstrip_head a r0) as [E' | [r1 E']]; rewrite E' in E;
        [discriminate|]. injection E as -> _. reflexivity. }
    change (no_blank_line (String c (String c' r')))
      with (negb (is_newline c && is_newline c') && no_blank_line (String c' r')).
    rewrite <- Hhead, H1, IH'. reflexivity.
Qed.

Lemma paragraphs_no_blank_line : forall text ps,
  paragraphs text ps -> Forall (fun p => no_blank_line p = true) ps.
Proof.
  intros text ps H. induction H; constructor; auto.
Qed.

(** ** Documents of one paragraph, and blank documents *)

Lemma re_split_single : forall text,
  no_blank_line text = true -> re_split false text = [text].
Proof.
  induction text as [|c rest IH]; intros H; [reflexivity|].
  pose proof (IH (no_blank_line_tail _ _ H)) as IH'.
  simpl in H. apply andb_true_iff in H. destruct H as [H _].
  simpl. destruct (is_newline c); [|rewrite IH'; reflexivity].
  destruct rest as [|c' r]; [reflexivity|].
  simpl in H. destruct (is_newline c'); [discriminate|].
  rewrite IH'. reflexivity.
Qed.

Lemma push_blank : forall c ps,
  Py.isspace c = true ->
  Forall (fun p => blank p = true) ps ->
  Forall (fun p => blank p = true) (push c ps).
Proof.
  intros c ps Hc H. destruct H as [|p ps Hp Hps]; simpl.
  - repeat constructor. simpl. rewrite Hc. reflexivity.
  - constructor; [simpl; rewrite Hc, Hp; reflexivity | exact Hps].
Qed.

Lemma re_split_blank : forall text in_sep,
  blank text = true ->
  Forall (fun p => blank p = true) (re_split in_sep text).
Proof.
  induction text as [|c rest IH]; intros in_sep H; simpl.
  - repeat constructor.
  - simpl in H. apply andb_true_iff in H. destruct H as [Hc Hr].
    destruct (is_newline c).
    + destruct in_sep; [apply IH; exact Hr|].
      destruct rest as [|c' r]; [apply push_blank; auto|].
      destruct (is_newline c'); [|apply push_blank; auto].
      constructor; [reflexivity | apply IH; exact Hr].
    + apply push_blank; auto.
Qed.

Lemma kept_none : forall filename ps start,
  Forall (fun p => blank p = true) ps ->
  flat_map (kept filename) (Py.enumerate_from start ps) = [].
Proof.
  intros filename ps start H. revert start.
  induction H as [|p ps Hp Hps IH]; intros start; simpl; [reflexivity|].
  rewrite strip_truthy, Hp. simpl. apply IH.
Qed.

Lemma paragraph_chunks_kept : forall text filename,
  paragraph_chunks text filename
  = flat_map (kept filename) (Py.enumerate_from 0 (split_paragraphs text)).
Proof.
  intros text filename. unfold paragraph_chunks, Py.enumerate.
  apply flat_map_ext. intros [i para]. reflexivity.
Qed.

Lemma index_directory_spec : forall fit_transform self files,
  index_directory fit_transform self files
  = match chunks self ++ md_chunks files with
    | [] => Indexed {| chunks := []; tfidf_matrix := tfidf_matrix self |}
    | c :: cs =>
        match fit_transform (map content (c :: cs)) with
        | Some tfidf =>
            Indexed {| chunks := c :: cs; tfidf_matrix := Some tfidf |}
        | None =>
            FitRaised {| chunks := c :: cs; tfidf_matrix := tfidf_matrix self |}
        end
    end.
Proof.
  intros fit_transform self files. unfold index_directory.
  destruct (walk_chunks files self) as [H1 H2].
  set (self' := fold_left _ files self) in *. cbv zeta.
  rewrite <- H1, <- H2.
  destruct self' as [cs m]. simpl.
  destruct cs as [|c cs]; [reflexivity|].
  destruct (fit_transform _); reflexivity.
Qed.

Lemma index_directory_chunks : forall fit_transform self files,
  chunks (retriever_after (index_directory fit_transform self files))
  = chunks self ++ md_chunks files.
Proof.
  intros fit_transform self files. rewrite index_directory_spec.
  destruct (chunks self ++ md_chunks files) as [|c cs]; [reflexivity|].
  destruct (fit_transform _); reflexivity.
Qed.

Lemma search_unbuilt : forall argsort self query k,
  tfidf_matrix self = None -> search argsort self query k = Some [].
Proof.
  intros argsort self query k H. unfold search. rewrite H. reflexivity.
Qed.

End RetrieverFacts.

Import RetrieverFacts.

(** X1.  [search] with [k = 0] or a negative [k] on a built index,
    for an [argsort] that lists the positions in ascending order of
    score.  The slice [[-k:]] then starts at position [-k] of the
    ascending order, so nothing is cut for [k = 0] and the [-k] lowest
    scores are cut for a negative [k]: the result has [n - (-k)]
    entries (none when [-k] exceeds [n]), still in order of
    non-increasing score, a position that is left out scores no more
    than any returned one, and for [k = 0] every chunk of the index is
    returned. *)
Theorem search_nonpositive_k : forall argsort self query k,
  sorts argsort ->
  built self ->
  (k <= 0)%Z ->
  exists results,
    search argsort self query k = Some results
    /\ List.length results = List.length (chunks self) - Z.to_nat (- k)
    /\ StronglySorted (fun r1 r2 => (score r2 <= score r1)%Q) results
    /\ (forall i s,
          nth_error (scores_for self query) i = Some s ->
          (exists r,
             In r results /\ score r = s
             /\ nth_error (chunks self) i = Some (chunk r))
          \/ Forall (fun r => (s <= score r)%Q) results)
    /\ (k = 0%Z -> forall c, In c (chunks self) -> In c (map chunk results)).
Proof.
  intros argsort self query k Hsort Hb Hk.
  destruct (search_picked argsort self query k Hsort Hb) as [results [Hs Hall]].
  exists results. split; [exact Hs|]. split; [|split; [|split]].
  - rewrite <- (Forall2_length Hall). unfold picked.
    rewrite length_map, length_rev, slice_from_nonneg_length by lia.
    destruct (Hsort (scores_for self query)) as [Hp _].
    rewrite (Permutation_length Hp), length_seq.
    rewrite built_scores_length by exact Hb. reflexivity.
  - eapply shows_scores_descend; [exact Hall|]. apply picked_descending. exact Hsort.
  - intros i s Hi.
    destruct (picked_best argsort (scores_for self query) k i s Hsort Hi)
      as [Hin | Hle].
    + left. destruct (shows_in _ _ _ _ Hall Hin) as [r [Hr [Hsc Hch]]].
      exists r. auto.
    + right. eapply shows_scores_above; eassumption.
  - intros -> c Hc. apply In_nth_error in Hc. destruct Hc as [i Hi].
    assert (Hlt : i < List.length (scores_for self query)).
    { rewrite built_scores_length by exact Hb. apply nth_error_Some. congruence. }
    destruct (nth_error (scores_for self query) i) as [s|] eqn:Es;
      [|apply nth_error_None in Es; lia].
    apply (shows_covers _ _ _ i s c Hall); [|exact Hi].
    apply picked_complete; [exact Hsort | right; reflexivity | exact Es].
Qed.

Lemma search_nonpositive_k_witness :
  exists results,
    search insertion_argsort mammals_index "mammals" 0 = Some results
    /\ List.length results = List.length (chunks mammals_index) - Z.to_nat (- 0)
    /\ StronglySorted (fun r1 r2 => (score r2 <= score r1)%Q) results
    /\ (forall i s,
          nth_error (scores_for mammals_index "mammals") i = Some s ->
          (exists r,
             In r results /\ score r = s
             /\ nth_error (chunks mammals_index) i = Some (chunk r))
          \/ Forall (fun r => (s <= score r)%Q) results)
    /\ (0%Z = 0%Z -> forall c, In c (chunks mammals_index) -> In c (map chunk results)).
Proof.
  apply (search_nonpositive_k insertion_argsort mammals_index "mammals" 0
           insertion_argsort_sorts mammals_index_built).
  discriminate.
Defined.

(** X2.  Whatever [k] is, and in whatever order [argsort] lists
    equal scores, the results of [search] on a built index stand for
    pairwise distinct positions of the index: no chunk position is
    returned twice, and the result is never longer than the index. *)
Theorem search_positions_distinct : forall argsort self query k,
  sorts argsort ->
  built self ->
  exists ps results,
    search argsort self query k = Some results
    /\ Forall2 (shows (chunks self)) ps results
    /\ NoDup (map fst ps)
    /\ List.length results <= List.length (chunks self).
Proof.
  intros argsort self query k Hsort Hb.
  destruct (search_picked argsort self query k Hsort Hb) as [results [Hs Hall]].
  exists (picked argsort (scores_for self query) k), results.
  split; [exact Hs|]. split; [exact Hall|].
  pose proof (picked_positions_distinct argsort (scores_for self query) k Hsort)
    as Hnd.
  split; [exact Hnd|].
  rewrite <- (Forall2_length Hall).
  assert (Hle : List.length (map fst (picked argsort (scores_for self query) k))
                <= List.length (seq 0 (List.length (chunks self)))).
  { apply NoDup_incl_length; [exact Hnd|].
    intros i Hi. apply in_map_iff in Hi. destruct Hi as [[i' s] [<- Hp]].
    pose proof (picked_lookup argsort (scores_for self query) k Hsort) as Hl.
    rewrite Forall_forall in Hl. apply Hl in Hp. simpl in *.
    apply in_seq. split; [lia|]. simpl.
    rewrite <- (built_scores_length self query Hb).
    apply nth_error_Some. congruence. }
  rewrite length_map, length_seq in Hle. exact Hle.
Qed.

Lemma search_positions_distinct_witness :
  exists ps results,
    search insertion_argsort mammals_index "mammals" (-1) = Some results
    /\ Forall2 (shows (chunks mammals_index)) ps results
    /\ NoDup (map fst ps)
    /\ List.length results <= List.length (chunks mammals_index).
Proof.
  apply (search_positions_distinct insertion_argsort mammals_index "mammals" (-1)
           insertion_argsort_sorts mammals_index_built).
Defined.

(** The fit of the vectorizer on a small corpus: with [min_df=2] and
    [max_df=0.85] it raises on fewer than three texts; on more, here,
    it gives every text the score 0. *)
Definition small_corpus_raises (contents : list string) : option Tfidf :=
  if List.length contents <? 3 then None
  else Some (mkTfidf (fun _ => map (fun _ => 0%Q) contents)).


(** A directory with a single document of two paragraphs: the fit
    raises and the retriever is left with two chunks and no matrix. *)
Example two_chunk_corpus_fit_raises :
  index_directory small_corpus_raises init
    [ ("a.md", ("Cats are mammals." ++ LF ++ LF ++ "Dogs are mammals too.")%string) ]
  = FitRaised
      {| chunks :=
           [ {| content := "Cats are mammals."; source := "a.md"; chunk_id := 0 |};
             {| content := "Dogs are mammals too."; source := "a.md"; chunk_id := 1 |} ];
         tfidf_matrix := None |}.
Proof. reflexivity. Qed.

(** X4.  A document without a blank line is one paragraph: it gives
    no chunk when it is blank, and otherwise exactly one chunk, with
    ordinal 0 and the stripped text of the whole document. *)
Theorem single_paragraph_document : forall text filename,
  no_blank_line text = true ->
  split_paragraphs text = [text]
  /\ paragraph_chunks text filename
     = if blank text then []
       else [ {| content := Py.strip text; source := filename; chunk_id := 0 |} ].
Proof.
  intros text filename H.
  assert (E : split_paragraphs text = [text]) by (apply re_split_single; exact H).
  split; [exact E|].
  rewrite paragraph_chunks_kept, E. simpl. rewrite strip_truthy.
  destruct (blank text); reflexivity.
Qed.

Lemma single_paragraph_document_witness :
  split_paragraphs "Paris is a city." = ["Paris is a city."]
  /\ paragraph_chunks "Paris is a city." "b.md"
     = if blank "Paris is a city." then []
       else [ {| content := Py.strip "Paris is a city.";
                 source := "b.md"; chunk_id := 0 |} ].
Proof.
  apply (single_paragraph_document "Paris is a city." "b.md"). reflexivity.
Defined.

(** X5.  A document of whitespace only, however many line breaks it
    holds, gives no chunk; and a directory in which every [.md] file is
    such a document (or which has no [.md] file) leaves a fresh
    retriever as it was: the fit is not called, nothing is raised, the
    retriever stays unbuilt, and [search] answers every query and
    every [k] with the empty list. *)
Theorem blank_corpus_search_empty : forall fit_transform files,
  (forall file text,
     In (file, text) files -> Py.endswith file ".md" = true -> blank text = true) ->
  (forall text file, blank text = true -> paragraph_chunks text file = [])
  /\ index_directory fit_transform init files = Indexed init
  /\ chunks (retriever_after (index_directory fit_transform init files)) = []
  /\ tfidf_matrix (retriever_after (index_directory fit_transform init files)) = None
  /\ (forall argsort query k,
        search argsort (retriever_after (index_directory fit_transform init files))
          query k = Some []).
Proof.
  intros fit_transform files H.
  assert (Hb : forall text file, blank text = true -> paragraph_chunks text file = []).
  { intros text file Ht. rewrite paragraph_chunks_kept. apply kept_none.
    apply re_split_blank. exact Ht. }
  assert (Hmd : md_chunks files = []).
  { unfold md_chunks. clear fit_transform. induction files as [|[file text] files IH];
      [reflexivity|]. simpl.
    rewrite IH by (intros f t Hin; apply H; right; exact Hin).
    destruct (Py.endswith file ".md") eqn:E; [|reflexivity].
    rewrite Hb; [reflexivity|]. apply (H file text); [left; reflexivity | exact E]. }
  pose proof (index_directory_spec fit_transform init files) as E.
  change (chunks init ++ md_chunks files) with (md_chunks files) in E.
  rewrite Hmd in E. change (Indexed _) with (Indexed init) in E.
  split; [exact Hb|]. rewrite E.
  split; [reflexivity|]. split; [reflexivity|]. split; [reflexivity|].
  intros argsort query k. reflexivity.
Qed.

Definition blank_corpus : list (string * string) :=
  [ ("empty.md", (LF ++ LF ++ "   " ++ LF ++ LF ++ LF)%string);
    ("notes.txt", "Cats are mammals.") ].

Lemma blank_corpus_search_empty_witness :
  (forall text file, blank text = true -> paragraph_chunks text file = [])
  /\ index_directory small_corpus_raises init blank_corpus = Indexed init
  /\ chunks (retriever_after (index_directory small_corpus_raises init blank_corpus))
     = []
  /\ tfidf_matrix
       (retriever_after (index_directory small_corpus_raises init blank_corpus))
     = None
  /\ (forall argsort query k,
        search argsort
          (retriever_after (index_directory small_corpus_raises init blank_corpus))
          query k = Some []).
Proof.
  apply (blank_corpus_search_empty small_corpus_raises blank_corpus).
  intros file text [H | [H | []]] E; injection H as <- <-;
    [reflexivity | discriminate].
Defined.

(** X6.  Every chunk a fresh retriever holds after [index_directory],
    whether the fit returned or raised, comes from a [.md] file of the
    walk, carries that file's name, and holds a text that is not
    empty, has no whitespace at either end and has no blank line
    inside; its ordinal is a position in the paragraph list of that
    file. *)
Theorem indexed_chunks_wellformed : forall fit_transform files c,
  In c (chunks (retriever_after (index_directory fit_transform init files))) ->
  Py.endswith (source c) ".md" = true
  /\ content c <> EmptyString
  /\ Py.strip (content c) = content c
  /\ no_blank_line (content c) = true
  /\ exists text,
       In (source c, text) files
       /\ chunk_id c < List.length (split_paragraphs text).
Proof.
  intros fit_transform files c Hc.
  rewrite index_directory_chunks in Hc. simpl in Hc. unfold md_chunks in Hc.
  apply in_flat_map in Hc. destruct Hc as [[file text] [Hin Hc]].
  destruct (Py.endswith file ".md") eqn:E; [|contradiction].
  rewrite paragraph_chunks_kept in Hc. apply kept_chunks_in in Hc.
  destruct Hc as [i [para [Hn [Hb ->]]]]. simpl.
  split; [exact E|]. split; [|split; [|split]].
  - pose proof (strip_truthy para) as Ht. rewrite Hb in Ht.
    destruct (Py.strip para); [discriminate | discriminate].
  - apply strip_idempotent.
  - unfold Py.strip. apply rstrip_no_blank_line, lstrip_no_blank_line.
    pose proof (paragraphs_no_blank_line _ _ (re_split_paragraphs text)) as Hp.
    rewrite Forall_forall in Hp. apply Hp. eapply nth_error_In. exact Hn.
  - exists text. split; [exact Hin|]. apply nth_error_Some. congruence.
Qed.

Lemma indexed_chunks_wellformed_witness :
  Py.endswith "a.md" ".md" = true
  /\ "Dogs are mammals too." <> EmptyString
  /\ Py.strip "Dogs are mammals too." = "Dogs are mammals too."
  /\ no_blank_line "Dogs are mammals too." = true
  /\ exists text,
       In ("a.md", text) mammals_corpus
       /\ 1 < List.length (split_paragraphs text).
Proof.
  apply (indexed_chunks_wellformed
           (fun _ => Some {| cosine_similarity := fun _ => [1; 1; 0]%Q |})
           mammals_corpus
           {| content := "Dogs are mammals too."; source := "a.md"; chunk_id := 1 |}).
  right; left; reflexivity.
Defined.



(* ================================================================= *)
(** * Further properties of the workflow *)

Module RowFacts.

(** [d.get(k)] *)
Fixpoint dict_get (k : string) (d : RowDict) : option SqlValue :=
  match d with
  | [] => None
  | (k', v) :: d' => if String.eqb k k' then Some v else dict_get k d'
  end.

(** The value of the last pair with key [k], if there is one. *)
Definition last_value (k : string) (pairs : list (string * SqlValue))
    : option SqlValue :=
  fold_left (fun found '(k', v) => if String.eqb k k' then Some v else found)
    pairs None.

Lemma dict_get_set : forall k k' v d,
  dict_get k (dict_set k' v d)
  = if String.eqb k k' then Some v else dict_get k d.
Proof.
  intros k k' v d. induction d as [|[k0 v0] d IH]; simpl.
  - reflexivity.
  - destruct (String.eqb_spec k' k0) as [-> | Hne]; simpl.
    + destruct (String.eqb k k0); reflexivity.
    + rewrite IH. destruct (String.eqb_spec k k0) as [-> | Hne'];
        [|reflexivity].
      apply String.eqb_neq in Hne. rewrite String.eqb_sym in Hne.
      rewrite Hne. reflexivity.
Qed.

Lemma dict_get_fold : forall k pairs d,
  dict_get k (fold_left (fun d '(k', v) => dict_set k' v d) pairs d)
  = fold_left (fun found '(k', v) => if String.eqb k k' then Some v else found)
      pairs (dict_get k d).
Proof.
  intros k pairs. induction pairs as [|[k' v] pairs IH]; intros d; simpl.
  - reflexivity.
  - rewrite IH, dict_get_set. reflexivity.
Qed.

Lemma dict_set_keys : forall k v d,
  NoDup (map fst d) -> NoDup (map fst (dict_set k v d)).
Proof.
  intros k v d. induction d as [|[k0 v0] d IH]; intros H; simpl.
  - repeat constructor. intros [].
  - inversion H as [|? ? Hn Hd]; subst.
    destruct (String.eqb_spec k k0) as [-> | Hne]; simpl.
    + constructor; assumption.
    + constructor; [|apply IH; exact Hd].
      intros Hin. apply Hn. clear - Hin Hne.
      induction d as [|[k1 v1] d IH]; simpl in *.
      * destruct Hin as [E | []]. congruence.
      * destruct (String.eqb_spec k k1) as [-> | Hne1]; simpl in Hin.
        -- exact Hin.
        -- destruct Hin as [E | Hin]; [left; exact E | right; apply IH; exact Hin].
Qed.

Lemma dict_set_fresh : forall k v d,
  ~ In k (map fst d) -> dict_set k v d = d ++ [(k, v)].
Proof.
  intros k v d. induction d as [|[k0 v0] d IH]; intros H; simpl; [reflexivity|].
  simpl in H. destruct (String.eqb_spec k k0) as [-> | Hne]; [tauto|].
  rewrite IH by tauto. reflexivity.
Qed.

Lemma dict_fold_fresh : forall pairs d,
  NoDup (map fst d ++ map fst pairs) ->
  fold_left (fun d '(k, v) => dict_set k v d) pairs d = d ++ pairs.
Proof.
  induction pairs as [|[k v] pairs IH]; intros d H; simpl.
  - rewrite app_nil_r. reflexivity.
  - assert (Hk : ~ In k (map fst d)).
    { intros Hin. apply NoDup_remove_2 in H. apply H.
      apply in_or_app. left. exact Hin. }
    rewrite dict_set_fresh by exact Hk. rewrite IH.
    + rewrite <- app_assoc. reflexivity.
    + rewrite map_app. simpl. rewrite <- app_assoc. exact H.
Qed.

Lemma dict_fold_keys : forall pairs d,
  NoDup (map fst d) ->
  NoDup (map fst (fold_left (fun d '(k, v) => dict_set k v d) pairs d)).
Proof.
  induction pairs as [|[k v] pairs IH]; intros d H; simpl; [exact H|].
  apply IH. apply dict_set_keys. exact H.
Qed.

Lemma combine_keys_distinct : forall (names : list string) (row : SqlRow),
  NoDup names -> NoDup (map fst (combine names row)).
Proof.
  induction names as [|n names IH]; intros row H; simpl; [constructor|].
  destruct row as [|v row]; simpl; [constructor|].
  inversion H as [|? ? Hn Hd]; subst. constructor; [|apply IH; exact Hd].
  intros Hin. apply Hn. apply in_map_iff in Hin.
  destruct Hin as [[n' v'] [<- Hin]]. apply in_combine_l in Hin. exact Hin.
Qed.

End RowFacts.

Import RowFacts.

(** X7.  The [dict] the executor builds for a result row.  Its keys
    are pairwise distinct, and looking a column name up gives the value
    of the last column of that name.  With pairwise distinct column
    names the [dict] is the columns paired with their values, in column
    order; when a name repeats, as for two joined tables that both have
    a column [id], only one entry remains for it and the values of the
    earlier columns of that name are lost. *)
Theorem dict_zip_lookup : forall (column_names : list string) (row : SqlRow),
  NoDup (map fst (dict_zip column_names row))
  /\ (forall k,
        dict_get k (dict_zip column_names row)
        = last_value k (combine column_names row))
  /\ (NoDup column_names ->
      dict_zip column_names row = combine column_names row)
  /\ List.length (dict_zip column_names row)
     <= Nat.min (List.length column_names) (List.length row).
Proof.
  intros column_names row. unfold dict_zip.
  assert (Hk : NoDup (map fst (fold_left (fun d '(k, v) => dict_set k v d)
                                 (combine column_names row) []))).
  { apply dict_fold_keys. constructor. }
  split; [exact Hk|]. split; [|split].
  - intros k. apply (dict_get_fold k (combine column_names row) []).
  - intros H. apply (dict_fold_fresh (combine column_names row) []).
    simpl. apply combine_keys_distinct. exact H.
  - rewrite <- length_combine, <- (length_map fst), <- (length_map fst (combine _ _)).
    apply NoDup_incl_length; [exact Hk|].
    intros k Hin.
    assert (G : forall pairs d k,
               In k (map fst (fold_left (fun d '(k, v) => dict_set k v d) pairs d)) ->
               In k (map fst d) \/ In k (map fst pairs)).
    { clear. induction pairs as [|[k' v] pairs IH]; intros d k H; simpl in *;
        [left; exact H|].
      apply IH in H. destruct H as [H | H]; [|right; right; exact H].
      clear IH. induction d as [|[k0 v0] d IHd]; simpl in *.
      - destruct H as [<- | []]. right; left; reflexivity.
      - destruct (String.eqb k' k0) eqn:E; simpl in H.
        + apply String.eqb_eq in E. subst k0.
          destruct H as [<- | H]; [right; left; reflexivity | left; right; exact H].
        + destruct H as [<- | H]; [left; left; reflexivity|].
          apply IHd in H. destruct H as [H | H]; [left; right; exact H | right; exact H]. }
    apply G in Hin. destruct Hin as [[] | Hin]. exact Hin.
Qed.

Example dict_zip_repeated_column :
  dict_zip ["id"; "name"; "id"] [SqlInteger 1; SqlText "Chai"; SqlInteger 7]
  = [("id", SqlInteger 7); ("name", SqlText "Chai")].
Proof. reflexivity. Qed.

Module RunFacts.

Lemma pregel_step : forall w fuel t st n rest,
  pregel w (S fuel) t st (n :: rest)
  = match superstep w t st (n :: rest) with
    | inl f => Failed f
    | inr (st', active') => pregel w fuel (S t) st' active'
    end.
Proof. reflexivity. Qed.

Lemma pregel_done : forall w fuel t st, pregel w fuel t st [] = Completed st.
Proof. intros w fuel t st. destruct fuel; reflexivity. Qed.

(** *** The branch of a question classified [SQL] *)

Inductive sql_branch : list Node -> AgentState -> Prop :=
| sql_generate : forall st,
    retrieved_docs st = None -> sql_branch [generate_sql] st
| sql_execute : forall st,
    retrieved_docs st = None -> sql_branch [execute_sql] st
| sql_synthesize : forall st,
    retrieved_docs st = None -> sql_branch [synthesize] st
| sql_end : forall st,
    retrieved_docs st = None -> sql_branch [] st.

Lemma sql_branch_step : forall w t active st st' active',
  sql_branch active st ->
  superstep w t st active = inr (st', active') ->
  sql_branch active' st'.
Proof.
  intros w t active st st' active' H Hs.
  inversion H as [? Hd | ? Hd | ? Hd | ? Hd]; subst.
  - rewrite step_generate_sql in Hs. injection Hs as <- <-.
    apply sql_execute. exact Hd.
  - rewrite step_execute_sql in Hs.
    destruct (sql_query st) as [query|]; [|discriminate].
    destruct (database w t query) as [rows description | text].
    + injection Hs as <- <-.
      destruct (errors st); [apply sql_synthesize; exact Hd|].
      destruct (retry_count st <? 2)%Z;
        [apply sql_generate | apply sql_synthesize]; exact Hd.
    + injection Hs as <- <-.
      destruct (retry_count st + 1 <? 2)%Z;
        [apply sql_generate | apply sql_synthesize]; exact Hd.
  - rewrite step_synthesize in Hs.
    destruct (synthesis_context w st); [|discriminate].
    injection Hs as <- <-. apply sql_end. exact Hd.
  - injection Hs as <- <-. apply sql_end. exact Hd.
Qed.

Lemma sql_branch_no_retrieval : forall active st,
  sql_branch active st ->
  ~ In retrieve_docs active /\ retrieved_docs st = None.
Proof.
  intros active st H. inversion H; subst; split; try assumption;
    simpl; intros G; repeat (destruct G as [G | G]; try discriminate G); exact G.
Qed.

(** *** The branch of a question classified [RAG] *)

Inductive rag_branch : list Node -> AgentState -> Prop :=
| rag_retrieve : forall st,
    classification st = Some "RAG" -> sql_query st = None ->
    sql_results st = None -> retry_count st = 0%Z ->
    rag_branch [retrieve_docs] st
| rag_synthesize : forall st,
    sql_query st = None -> sql_results st = None -> retry_count st = 0%Z ->
    rag_branch [synthesize] st
| rag_end : forall st,
    sql_query st = None -> sql_results st = None -> retry_count st = 0%Z ->
    rag_branch [] st.

Lemma rag_branch_step : forall w t active st st' active',
  rag_branch active st ->
  superstep w t st active = inr (st', active') ->
  rag_branch active' st'.
Proof.
  intros w t active st st' active' H Hs.
  inversion H as [? Hc Hq Hr Hn | ? Hq Hr Hn | ? Hq Hr Hn]; subst.
  - rewrite step_retrieve_docs in Hs. unfold retriever_node in Hs.
    destruct (search (np_argsort w) (retriever w) (question st) 3) as [results|];
      [|discriminate].
    unfold is_hybrid in Hs. rewrite Hc in Hs. simpl in Hs.
    injection Hs as <- <-. apply rag_synthesize; assumption.
  - rewrite step_synthesize in Hs.
    destruct (synthesis_context w st); [|discriminate].
    injection Hs as <- <-. apply rag_end; assumption.
  - injection Hs as <- <-. apply rag_end; assumption.
Qed.

Lemma rag_branch_no_query : forall active st,
  rag_branch active st ->
  ~ In generate_sql active /\ ~ In execute_sql active
  /\ sql_query st = None /\ sql_results st = None /\ retry_count st = 0%Z.
Proof.
  intros active st H. inversion H; subst; repeat split; try assumption;
    simpl; intros G; repeat (destruct G as [G | G]; try discriminate G); exact G.
Qed.

(** What the first step leaves, by the router's answer. *)
Lemma first_step : forall w item st' active',
  superstep w 0 (initial_state item) [router] = inr (st', active') ->
  st' = routed w 0 (initial_state item)
  /\ (router_module w 0 (item_question item) = "SQL" -> active' = [generate_sql])
  /\ (router_module w 0 (item_question item) = "RAG" -> active' = [retrieve_docs]).
Proof.
  intros w item st' active' Hs. rewrite step_router in Hs.
  unfold route_question in Hs. simpl in Hs.
  destruct (String.eqb_spec (router_module w 0 (item_question item)) "SQL")
    as [E | Hne].
  - simpl in Hs. injection Hs as <- <-.
    split; [reflexivity|]. split; [reflexivity|]. rewrite E. discriminate.
  - destruct (String.eqb_spec (router_module w 0 (item_question item)) "RAG")
      as [E | Hne'].
    + simpl in Hs. injection Hs as <- <-.
      split; [reflexivity|]. split; [congruence | reflexivity].
    + destruct (String.eqb (router_module w 0 (item_question item)) "Hybrid");
        [|discriminate].
      simpl in Hs. injection Hs as <- <-.
      split; [reflexivity|]. split; congruence.
Qed.

End RunFacts.

Import RunFacts.

(** X8.  A run on a question the router classified [SQL] never runs
    [retrieve_docs]: in every configuration it goes through the
    retriever is not among the nodes to run, and no retrieved documents
    are ever stored. *)
Theorem sql_run_never_retrieves : forall w item cfg,
  router_module w 0 (item_question item) = "SQL" ->
  reachable w (initial_state item) cfg ->
  ~ In retrieve_docs (active cfg) /\ retrieved_docs (state cfg) = None.
Proof.
  intros w item cfg Hr H.
  assert (G : cfg = start (initial_state item)
              \/ sql_branch (active cfg) (state cfg)).
  { induction H as [|cfg st' active' H IH Hne Hstep]; [left; reflexivity|].
    right. simpl. destruct IH as [-> | IH].
    - simpl in Hstep. destruct (first_step _ _ _ _ Hstep) as [-> [Ha _]].
      rewrite (Ha Hr). apply sql_generate. reflexivity.
    - eapply sql_branch_step; eassumption. }
  destruct G as [-> | G]; [|apply sql_branch_no_retrieval; exact G].
  split; [|reflexivity]. simpl. intros [E | []]. discriminate.
Qed.

(** X9.  A run on a question the router classified [RAG] never runs
    [generate_sql] or [execute_sql]: no query is generated, the store
    is never asked, and the retry counter stays 0. *)
Theorem rag_run_never_queries : forall w item cfg,
  router_module w 0 (item_question item) = "RAG" ->
  reachable w (initial_state item) cfg ->
  ~ In generate_sql (active cfg) /\ ~ In execute_sql (active cfg)
  /\ sql_query (state cfg) = None /\ sql_results (state cfg) = None
  /\ retry_count (state cfg) = 0%Z.
Proof.
  intros w item cfg Hr H.
  assert (G : cfg = start (initial_state item)
              \/ rag_branch (active cfg) (state cfg)).
  { induction H as [|cfg st' active' H IH Hne Hstep]; [left; reflexivity|].
    right. simpl. destruct IH as [-> | IH].
    - simpl in Hstep. destruct (first_step _ _ _ _ Hstep) as [-> [_ Ha]].
      rewrite (Ha Hr). apply rag_retrieve; try reflexivity.
      simpl. rewrite Hr. reflexivity.
    - eapply rag_branch_step; eassumption. }
  destruct G as [-> | G]; [|apply rag_branch_no_query; exact G].
  repeat split; simpl; try intros [E | []]; try discriminate.
Qed.

Lemma sql_run_never_retrieves_witness :
  ~ In retrieve_docs (active after_second_failure)
  /\ retrieved_docs (state after_second_failure) = None.
Proof.
  apply (sql_run_never_retrieves (failing_world "SQL") orders_item
           after_second_failure);
    [reflexivity | exact after_second_failure_reachable].
Defined.

(** The configuration of a [RAG] run after retrieval. *)
Definition rag_after_retrieval : Config :=
  Eval vm_compute in
    match run_to (answering_world "RAG") 2 (start (initial_state orders_item)) with
    | Some cfg => cfg
    | None => start (initial_state orders_item)
    end.

Lemma rag_after_retrieval_reachable :
  reachable (answering_world "RAG") (initial_state orders_item) rag_after_retrieval.
Proof. apply (run_to_reachable _ _ 2). reflexivity. Qed.

Lemma rag_run_never_queries_witness :
  ~ In generate_sql (active rag_after_retrieval)
  /\ ~ In execute_sql (active rag_after_retrieval)
  /\ sql_query (state rag_after_retrieval) = None
  /\ sql_results (state rag_after_retrieval) = None
  /\ retry_count (state rag_after_retrieval) = 0%Z.
Proof.
  apply (rag_run_never_queries (answering_world "RAG") orders_item
           rag_after_retrieval);
    [reflexivity | exact rag_after_retrieval_reachable].
Defined.

Module CostFacts.

(** How often node [n] runs in a list of steps. *)
Definition calls (n : Node) (steps : list (list Node)) : nat :=
  List.length (filter (existsb (node_eqb n)) steps).

(** A bound on how often node [n] still runs from a configuration. *)
Definition calls_left (n : Node) (active : list Node) (st : AgentState) : nat :=
  let first := (retry_count st <? 1)%Z in
  match active with
  | [router] =>
      match n with router | retrieve_docs => 1 | _ => 2 end
  | [retrieve_docs] =>
      match n with router => 0 | retrieve_docs => 1 | _ => 2 end
  | [generate_sql] =>
      match n with
      | router | retrieve_docs => 0
      | generate_sql | execute_sql => if first then 2 else 1
      | synthesize => 1
      end
  | [generate_sql; synthesize] =>
      match n with router | retrieve_docs => 0 | _ => 2 end
  | [execute_sql] =>
      match n with
      | router | retrieve_docs => 0
      | generate_sql => if first then 1 else 0
      | execute_sql => if first then 2 else 1
      | synthesize => 1
      end
  | [synthesize] =>
      match n with synthesize => 1 | _ => 0 end
  | _ => 0
  end.

Lemma calls_step : forall w t n active st st' active',
  phase active st ->
  superstep w t st active = inr (st', active') ->
  calls_left n active' st' + (if existsb (node_eqb n) active then 1 else 0)
  <= calls_left n active st.
Proof.
  intros w t n active st st' active' H Hs.
  inversion H as [? Hr He | ? Hr He | ? Hr He | ? Hr He | ? Hr He Hq
                 | ? Hr He Hl | ? Hr He Hl]; subst.
  - rewrite step_router in Hs.
    destruct (route_question (routed w t st)) as [label|]; [|discriminate].
    destruct (String.eqb label "generate_sql"); injection Hs as <- <-;
      destruct n; cbn -[Z.ltb Z.add]; rewrite ?Hr; cbn; lia.
  - rewrite step_retrieve_docs in Hs. unfold retriever_node in Hs.
    destruct (search (np_argsort w) (retriever w) (question st) 3); [|discriminate].
    destruct (is_hybrid st); injection Hs as <- <-;
      destruct n; cbn -[Z.ltb Z.add]; rewrite ?Hr; cbn; lia.
  - rewrite step_generate_sql in Hs. injection Hs as <- <-.
    destruct n; cbn -[Z.ltb Z.add]; destruct (retry_count st <? 1)%Z; lia.
  - rewrite step_generate_sql_synthesize in Hs.
    destruct (synthesis_context w st); [|discriminate].
    injection Hs as <- <-.
    destruct n; cbn -[Z.ltb Z.add]; rewrite ?Hr; cbn; lia.
  - rewrite step_execute_sql in Hs.
    destruct (sql_query st) as [query|]; [|discriminate].
    destruct (database w t query) as [rows description | text].
    + rewrite He in Hs. injection Hs as <- <-.
      destruct n; cbn -[Z.ltb Z.add]; destruct (retry_count st <? 1)%Z; lia.
    + destruct (Z.ltb_spec (retry_count st + 1) 2); injection Hs as <- <-;
        destruct n; cbn -[Z.ltb Z.add];
        destruct (Z.ltb_spec (retry_count st) 1);
        destruct (Z.ltb_spec (retry_count st + 1) 1); lia.
  - rewrite step_synthesize in Hs.
    destruct (synthesis_context w st); [|discriminate].
    injection Hs as <- <-. destruct n; cbn; lia.
  - injection Hs as <- <-. cbn. lia.
Qed.

Lemma calls_cons : forall n step steps,
  calls n (step :: steps)
  = (if existsb (node_eqb n) step then 1 else 0) + calls n steps.
Proof.
  intros n step steps. unfold calls. cbn [filter].
  destruct (existsb (node_eqb n) step); reflexivity.
Qed.

Lemma schedule_bounds : forall w n fuel t active st,
  phase active st ->
  calls n (schedule w fuel t st active) <= calls_left n active st
  /\ List.length (schedule w fuel t st active) <= steps_left active st.
Proof.
  intros w n fuel. induction fuel as [|fuel IH]; intros t active st Hp.
  - destruct active; simpl; unfold calls; simpl; lia.
  - destruct active as [|a rest]; [unfold calls; simpl; lia|].
    cbn [schedule].
    pose proof (calls_step w t n (a :: rest) st) as Hc.
    destruct (phase_progress w t (a :: rest) st Hp ltac:(discriminate))
      as [[st' [active' [E [Hp' Hlt]]]] | [E | [E | E]]]; rewrite E.
    + specialize (Hc st' active' Hp E).
      destruct (IH (S t) active' st' Hp') as [IH1 IH2].
      rewrite calls_cons. cbn [List.length].
      destruct (existsb (node_eqb n) (a :: rest)); lia.
    + rewrite calls_cons.
      inversion Hp; subst; destruct n; cbn -[Z.ltb];
        try destruct (retry_count st <? 1)%Z; cbn; lia.
    + rewrite calls_cons.
      inversion Hp; subst; destruct n; cbn -[Z.ltb];
        try destruct (retry_count st <? 1)%Z; cbn; lia.
    + rewrite calls_cons.
      inversion Hp; subst; destruct n; cbn -[Z.ltb];
        try destruct (retry_count st <? 1)%Z; cbn; lia.
Qed.

(** *** Runs that complete end in the synthesizer *)



End CostFacts.

Import CostFacts.

(** X10.  The cost of one run that [run_batch] starts: at most 7
    steps, in which the router and the retriever run at most once, the
    generator and the executor (so the store) at most twice, and the
    synthesizer at most twice. *)
Theorem run_call_bounds : forall w item,
  List.length (schedule w recursion_limit 0 (initial_state item) [entry_point]) <= 7
  /\ calls router
       (schedule w recursion_limit 0 (initial_state item) [entry_point]) <= 1
  /\ calls retrieve_docs
       (schedule w recursion_limit 0 (initial_state item) [entry_point]) <= 1
  /\ calls generate_sql
       (schedule w recursion_limit 0 (initial_state item) [entry_point]) <= 2
  /\ calls execute_sql
       (schedule w recursion_limit 0 (initial_state item) [entry_point]) <= 2
  /\ calls synthesize
       (schedule w recursion_limit 0 (initial_state item) [entry_point]) <= 2.
Proof.
  intros w item.
  pose proof (fun n => schedule_bounds w n recursion_limit 0 [entry_point]
                         (initial_state item) (initial_phase item)) as H.
  split; [apply (H router)|].
  split; [apply (H router)|]. split; [apply (H retrieve_docs)|].
  split; [apply (H generate_sql)|]. split; [apply (H execute_sql)|].
  apply (H synthesize).
Qed.



Module PathFacts.

(** The question the generator gets on a retry after the failure
    [text]. *)
Definition repair_question (text question : string) : string :=
  ("Previous attempt failed with error: " ++ text
   ++ ". Please correct the query. Original question: " ++ question)%string.

(** The first and the second query of a run. *)
Definition first_query (w : World) (item : Item) : string :=
  sql_generator_module w 1 (item_question item) (schema w).

Definition second_query (w : World) (item : Item) (text : string) : string :=
  sql_generator_module w 3 (repair_question text (item_question item)) (schema w).

Lemma sql_first_step : forall w item,
  router_module w 0 (item_question item) = "SQL" ->
  superstep w 0 (initial_state item) [router]
  = inr (routed w 0 (initial_state item), [generate_sql]).
Proof.
  intros w item H. rewrite step_router. unfold route_question. simpl.
  rewrite H. reflexivity.
Qed.

Lemma rag_first_step : forall w item,
  router_module w 0 (item_question item) = "RAG" ->
  superstep w 0 (initial_state item) [router]
  = inr (routed w 0 (initial_state item), [retrieve_docs]).
Proof.
  intros w item H. rewrite step_router. unfold route_question. simpl.
  rewrite H. reflexivity.
Qed.

End PathFacts.

Import PathFacts.

(** X12.  A question classified [SQL] whose two queries both fail.
    The run completes after the second failure: the final state holds
    the second query, no results, the retry counter 2 and an error log
    with the second failure only.  The synthesizer is called with an
    empty context: the failure texts are not part of what it is
    given. *)
Theorem two_failures_end_without_evidence : forall w item text1 text2,
  router_module w 0 (item_question item) = "SQL" ->
  database w 2 (first_query w item) = SqliteError text1 ->
  database w 4 (second_query w item text1) = SqliteError text2 ->
  app_invoke w (initial_state item)
  = Completed
      {| question := item_question item;
         format_hint := item_format_hint item;
         classification := Some "SQL";
         sql_query := Some (second_query w item text1);
         sql_results := None;
         retrieved_docs := None;
         errors := [text2];
         retry_count := 2;
         final_answer :=
           Some (synthesizer_module w 5 (item_question item) EmptyString
                   (Some (second_query w item text1)) (item_format_hint item)) |}.
Proof.
  intros w item text1 text2 Hr H1 H2.
  unfold app_invoke, recursion_limit, entry_point.
  rewrite pregel_step, (sql_first_step w item Hr).
  rewrite pregel_step, step_generate_sql.
  rewrite pregel_step, step_execute_sql.
  change (sql_query (generated w 1 (routed w 0 (initial_state item))))
    with (Some (first_query w item)).
  cbv beta iota. rewrite H1.
  change (retry_count (generated w 1 (routed w 0 (initial_state item)))) with 0%Z.
  change (0 + 1 <? 2)%Z with true. cbv iota.
  rewrite pregel_step, step_generate_sql.
  rewrite pregel_step, step_execute_sql.
  match goal with
  | |- context [generated w 3 ?st] =>
      change (sql_query (generated w 3 st))
        with (Some (second_query w item text1))
  end.
  cbv beta iota. rewrite H2.
  match goal with
  | |- context [generated w 3 ?st] =>
      change (retry_count (generated w 3 st)) with 1%Z
  end.
  change (1 + 1 <? 2)%Z with false. cbv iota.
  rewrite pregel_step, step_synthesize.
  rewrite synthesis_context_no_rows by (left; reflexivity).
  rewrite pregel_done.
  unfold synthesized, generated, routed, second_query, repair_question.
  cbn. rewrite Hr. reflexivity.
Qed.

Lemma two_failures_end_without_evidence_witness :
  app_invoke (failing_world "SQL") (initial_state orders_item)
  = Completed
      {| question := item_question orders_item;
         format_hint := item_format_hint orders_item;
         classification := Some "SQL";
         sql_query :=
           Some (second_query (failing_world "SQL") orders_item "no such table: Order");
         sql_results := None;
         retrieved_docs := None;
         errors := ["no such table: Order"];
         retry_count := 2;
         final_answer :=
           Some (synthesizer_module (failing_world "SQL") 5
                   (item_question orders_item) EmptyString
                   (Some (second_query (failing_world "SQL") orders_item
                            "no such table: Order"))
                   (item_format_hint orders_item)) |}.
Proof.
  apply (two_failures_end_without_evidence (failing_world "SQL") orders_item
           "no such table: Order" "no such table: Order");
    reflexivity.
Defined.

(** X13.  A question classified [RAG] on a retriever whose index was
    never built (no chunk was found).  The retriever node does not
    raise: it stores an empty list of documents, and the run completes
    with the synthesizer called on an empty context and no query. *)
Theorem rag_on_unbuilt_index : forall w item,
  router_module w 0 (item_question item) = "RAG" ->
  tfidf_matrix (retriever w) = None ->
  retriever_node w 1 (routed w 0 (initial_state item)) = Some [RetrievedDocs []]
  /\ app_invoke w (initial_state item)
     = Completed
         {| question := item_question item;
            format_hint := item_format_hint item;
            classification := Some "RAG";
            sql_query := None;
            sql_results := None;
            retrieved_docs := Some [];
            errors := [];
            retry_count := 0;
            final_answer :=
              Some (synthesizer_module w 2 (item_question item) EmptyString
                      None (item_format_hint item)) |}.
Proof.
  intros w item Hr Hi.
  assert (Hn : retriever_node w 1 (routed w 0 (initial_state item))
               = Some [RetrievedDocs []]).
  { unfold retriever_node. rewrite search_unbuilt by exact Hi. reflexivity. }
  split; [exact Hn|].
  unfold app_invoke, recursion_limit, entry_point.
  rewrite pregel_step, (rag_first_step w item Hr).
  rewrite pregel_step, step_retrieve_docs, Hn.
  assert (Hh : is_hybrid (routed w 0 (initial_state item)) = false).
  { unfold is_hybrid. simpl. rewrite Hr. reflexivity. }
  rewrite Hh.
  rewrite pregel_step, step_synthesize.
  rewrite synthesis_context_no_rows by (left; reflexivity).
  rewrite pregel_done.
  unfold synthesized, routed. cbn. rewrite Hr. reflexivity.
Qed.

(** A world without documents. *)
Definition unindexed_world : World :=
  {| router_module := fun _ _ => "RAG";
     sql_generator_module := fun _ question _ => question;
     synthesizer_module := fun _ _ context _ _ => context;
     schema := "CREATE TABLE [Orders]";
     database := fun _ _ => SqliteError "no such table: Order";
     retriever := init;
     np_argsort := insertion_argsort;
     json_dumps := fun _ => Some "[]";
     str_score := fun _ => "0.0" |}.

Lemma rag_on_unbuilt_index_witness :
  retriever_node unindexed_world 1 (routed unindexed_world 0 (initial_state orders_item))
  = Some [RetrievedDocs []]
  /\ app_invoke unindexed_world (initial_state orders_item)
     = Completed
         {| question := item_question orders_item;
            format_hint := item_format_hint orders_item;
            classification := Some "RAG";
            sql_query := None;
            sql_results := None;
            retrieved_docs := Some [];
            errors := [];
            retry_count := 0;
            final_answer :=
              Some (synthesizer_module unindexed_world 2 (item_question orders_item)
                      EmptyString None (item_format_hint orders_item)) |}.
Proof.
  apply (rag_on_unbuilt_index unindexed_world orders_item); reflexivity.
Defined.

(** The column names [run_sqlite_query] returns for a description. *)
Definition names_of (description : option (list string)) : list string :=
  match description with
  | Some names => names
  | None => []
  end.

(** The context the synthesizer gets when the result rows are the only
    evidence; [None] when [json.dumps] raises on them. *)
Definition rows_context (w : World) (results : list RowDict) : option string :=
  match results with
  | [] => Some EmptyString
  | _ :: _ =>
      match json_dumps w results with
      | Some text =>
          Some (Py.strip ("SQL Results:" ++ LF ++ text ++ LF ++ LF)%string)
      | None => None
      end
  end.

Lemma synthesis_context_rows : forall w st,
  retrieved_docs st = None ->
  synthesis_context w st
  = rows_context w match sql_results st with Some results => results | None => [] end.
Proof.
  intros w st Hd. unfold synthesis_context, rows_context. rewrite Hd.
  destruct (sql_results st) as [[|r rs]|]; try reflexivity.
  destruct (json_dumps w (r :: rs)); reflexivity.
Qed.

(** X14.  A question classified [SQL] whose first query succeeds.
    The executor stores the rows as dicts and the run goes on to the
    synthesizer without a retry.  When the query returned no row at
    all the synthesizer is given an empty context, as if no query had
    been run, and [json.dumps] is not called.  Otherwise the rows are
    serialized: when [json.dumps] returns, the run completes and the
    synthesizer was given the serialized rows as context; when it
    raises, as on a row that holds [bytes], the exception leaves the
    synthesizer and the run fails there. *)
Theorem first_query_succeeds : forall w item rows description,
  router_module w 0 (item_question item) = "SQL" ->
  database w 2 (first_query w item) = Executed rows description ->
  app_invoke w (initial_state item)
  = match rows_context w (map (dict_zip (names_of description)) rows) with
    | Some context =>
        Completed
          {| question := item_question item;
             format_hint := item_format_hint item;
             classification := Some "SQL";
             sql_query := Some (first_query w item);
             sql_results := Some (map (dict_zip (names_of description)) rows);
             retrieved_docs := None;
             errors := [];
             retry_count := 0;
             final_answer :=
               Some (synthesizer_module w 3 (item_question item) context
                       (Some (first_query w item)) (item_format_hint item)) |}
    | None => Failed (NodeRaised synthesize)
    end
  /\ (rows = [] -> rows_context w (map (dict_zip (names_of description)) rows)
                   = Some EmptyString)
  /\ (rows <> [] ->
      rows_context w (map (dict_zip (names_of description)) rows)
      = match json_dumps w (map (dict_zip (names_of description)) rows) with
        | Some text =>
            Some (Py.strip ("SQL Results:" ++ LF ++ text ++ LF ++ LF)%string)
        | None => None
        end).
Proof.
  intros w item rows description Hr H1.
  split; [|split; [intros ->; reflexivity | destruct rows; [congruence | reflexivity]]].
  unfold app_invoke, recursion_limit, entry_point.
  rewrite pregel_step, (sql_first_step w item Hr).
  rewrite pregel_step, step_generate_sql.
  rewrite pregel_step, step_execute_sql.
  change (sql_query (generated w 1 (routed w 0 (initial_state item))))
    with (Some (first_query w item)).
  cbv beta iota. rewrite H1.
  change (errors (generated w 1 (routed w 0 (initial_state item))))
    with (@nil string).
  cbv beta iota zeta.
  rewrite pregel_step, step_synthesize.
  rewrite synthesis_context_rows by reflexivity.
  match goal with
  | |- context [rows_context w (match sql_results ?st with _ => _ end)] =>
      change (sql_results st)
        with (Some (map (dict_zip (names_of description)) rows))
  end.
  cbv beta iota.
  destruct (rows_context w (map (dict_zip (names_of description)) rows));
    [|reflexivity].
  rewrite pregel_done.
  unfold synthesized, generated, routed. cbn. rewrite Hr. reflexivity.
Qed.

(** [json.dumps] on result rows: it raises on a row that holds
    [bytes] and otherwise returns the text. *)
Definition holds_bytes (rows : list RowDict) : bool :=
  existsb
    (existsb (fun kv => match snd kv with SqlBlob _ => true | _ => false end))
    rows.

Definition dumps_unless_bytes (text : string) (rows : list RowDict)
    : option string :=
  if holds_bytes rows then None else Some text.

(** A world whose store answers every query with the row [row]. *)
Definition one_row_world (row : SqlRow) (text : string) : World :=
  {| router_module := fun _ _ => "SQL";
     sql_generator_module := fun _ _ _ => "SELECT Picture AS p FROM Categories";
     synthesizer_module := fun _ _ context _ _ => context;
     schema := "CREATE TABLE [Categories]";
     database := fun _ _ => Executed [row] (Some ["p"]);
     retriever := init;
     np_argsort := insertion_argsort;
     json_dumps := dumps_unless_bytes text;
     str_score := fun _ => "0.0" |}.

Lemma first_query_succeeds_witness :
  app_invoke (answering_world "SQL") (initial_state orders_item)
  = match rows_context (answering_world "SQL")
            (map (dict_zip (names_of (Some ["n"]))) [[SqlInteger 830]]) with
    | Some context =>
        Completed
          {| question := item_question orders_item;
             format_hint := item_format_hint orders_item;
             classification := Some "SQL";
             sql_query := Some (first_query (answering_world "SQL") orders_item);
             sql_results :=
               Some (map (dict_zip (names_of (Some ["n"]))) [[SqlInteger 830]]);
             retrieved_docs := None;
             errors := [];
             retry_count := 0;
             final_answer :=
               Some (synthesizer_module (answering_world "SQL") 3
                       (item_question orders_item) context
                       (Some (first_query (answering_world "SQL") orders_item))
                       (item_format_hint orders_item)) |}
    | None => Failed (NodeRaised synthesize)
    end
  /\ ([[SqlInteger 830]] = [] ->
      rows_context (answering_world "SQL")
        (map (dict_zip (names_of (Some ["n"]))) [[SqlInteger 830]])
      = Some EmptyString)
  /\ ([[SqlInteger 830]] <> [] ->
      rows_context (answering_world "SQL")
        (map (dict_zip (names_of (Some ["n"]))) [[SqlInteger 830]])
      = match json_dumps (answering_world "SQL")
                (map (dict_zip (names_of (Some ["n"]))) [[SqlInteger 830]]) with
        | Some text =>
            Some (Py.strip ("SQL Results:" ++ LF ++ text ++ LF ++ LF)%string)
        | None => None
        end).
Proof.
  apply (first_query_succeeds (answering_world "SQL") orders_item
           [[SqlInteger 830]] (Some ["n"]));
    reflexivity.
Defined.

(** A world whose store has no orders. *)
Definition empty_store_world : World :=
  {| router_module := fun _ _ => "SQL";
     sql_generator_module := fun _ _ _ => "SELECT OrderID FROM Orders";
     synthesizer_module := fun _ _ context _ _ => context;
     schema := "CREATE TABLE [Orders]";
     database := fun _ _ => Executed [] (Some ["OrderID"]);
     retriever := init;
     np_argsort := insertion_argsort;
     json_dumps := dumps_unless_bytes "[]";
     str_score := fun _ => "0.0" |}.

(** The three ways a run with a successful first query ends: with
    rows the synthesizer is given their serialization, without rows
    an empty context, and on a row that holds [bytes] the run fails in
    the synthesizer. *)
Example first_query_outcomes :
  (exists final_state,
     app_invoke (answering_world "SQL") (initial_state orders_item)
     = Completed final_state
     /\ final_answer final_state
        = Some ("SQL Results:" ++ LF ++ "[{n: 830}]")%string)
  /\ (exists final_state,
        app_invoke empty_store_world (initial_state orders_item)
        = Completed final_state
        /\ final_answer final_state = Some EmptyString)
  /\ app_invoke (one_row_world [SqlBlob ["G"%char; "I"%char; "F"%char]] "[]")
       (initial_state orders_item)
     = Failed (NodeRaised synthesize).
Proof.
  split; [|split].
  - eexists. split; reflexivity.
  - eexists. split; reflexivity.
  - reflexivity.
Qed.

(** X15.  A question classified [SQL] whose first query fails and
    whose second query succeeds.  The second query is generated from
    the repair question that quotes the first failure.  When
    [json.dumps] returns on the rows of the second query (or there are
    none), the run completes with these rows, the retry counter 1 and
    an empty error log: the text of the first failure is not kept in
    the final state.  When [json.dumps] raises, the run fails in the
    synthesizer. *)
Theorem second_query_recovers : forall w item text1 rows description,
  router_module w 0 (item_question item) = "SQL" ->
  database w 2 (first_query w item) = SqliteError text1 ->
  database w 4 (second_query w item text1) = Executed rows description ->
  app_invoke w (initial_state item)
  = match rows_context w (map (dict_zip (names_of description)) rows) with
    | Some context =>
        Completed
          {| question := item_question item;
             format_hint := item_format_hint item;
             classification := Some "SQL";
             sql_query := Some (second_query w item text1);
             sql_results := Some (map (dict_zip (names_of description)) rows);
             retrieved_docs := None;
             errors := [];
             retry_count := 1;
             final_answer :=
               Some (synthesizer_module w 5 (item_question item) context
                       (Some (second_query w item text1))
                       (item_format_hint item)) |}
    | None => Failed (NodeRaised synthesize)
    end.
Proof.
  intros w item text1 rows description Hr H1 H2.
  unfold app_invoke, recursion_limit, entry_point.
  rewrite pregel_step, (sql_first_step w item Hr).
  rewrite pregel_step, step_generate_sql.
  rewrite pregel_step, step_execute_sql.
  change (sql_query (generated w 1 (routed w 0 (initial_state item))))
    with (Some (first_query w item)).
  cbv beta iota. rewrite H1.
  change (retry_count (generated w 1 (routed w 0 (initial_state item)))) with 0%Z.
  change (0 + 1 <? 2)%Z with true. cbv iota.
  rewrite pregel_step, step_generate_sql.
  rewrite pregel_step, step_execute_sql.
  match goal with
  | |- context [generated w 3 ?st] =>
      change (sql_query (generated w 3 st))
        with (Some (second_query w item text1));
      change (errors (generated w 3 st)) with (@nil string)
  end.
  cbv beta iota. rewrite H2. cbv beta iota zeta.
  rewrite pregel_step, step_synthesize.
  rewrite synthesis_context_rows by reflexivity.
  match goal with
  | |- context [rows_context w (match sql_results ?st with _ => _ end)] =>
      change (sql_results st)
        with (Some (map (dict_zip (names_of description)) rows))
  end.
  cbv beta iota.
  destruct (rows_context w (map (dict_zip (names_of description)) rows));
    [|reflexivity].
  rewrite pregel_done.
  unfold synthesized, generated, routed, second_query, repair_question.
  cbn. rewrite Hr. reflexivity.
Qed.

(** A world whose store rejects the first query and answers the
    second. *)
Definition recovering_world : World :=
  {| router_module := fun _ _ => "SQL";
     sql_generator_module := fun _ question _ => question;
     synthesizer_module := fun _ _ context _ _ => context;
     schema := "CREATE TABLE [Orders]";
     database :=
       fun t _ =>
         if t <=? 2 then SqliteError "no such table: Order"
         else Executed [[SqlInteger 830]] (Some ["n"]);
     retriever := init;
     np_argsort := insertion_argsort;
     json_dumps := dumps_unless_bytes "[{n: 830}]";
     str_score := fun _ => "0.0" |}.

Lemma second_query_recovers_witness :
  app_invoke recovering_world (initial_state orders_item)
  = match rows_context recovering_world
            (map (dict_zip (names_of (Some ["n"]))) [[SqlInteger 830]]) with
    | Some context =>
        Completed
          {| question := item_question orders_item;
             format_hint := item_format_hint orders_item;
             classification := Some "SQL";
             sql_query :=
               Some (second_query recovering_world orders_item
                       "no such table: Order");
             sql_results :=
               Some (map (dict_zip (names_of (Some ["n"]))) [[SqlInteger 830]]);
             retrieved_docs := None;
             errors := [];
             retry_count := 1;
             final_answer :=
               Some (synthesizer_module recovering_world 5
                       (item_question orders_item) context
                       (Some (second_query recovering_world orders_item
                                "no such table: Order"))
                       (item_format_hint orders_item)) |}
    | None => Failed (NodeRaised synthesize)
    end.
Proof.
  apply (second_query_recovers recovering_world orders_item
           "no such table: Order" [[SqlInteger 830]] (Some ["n"]));
    reflexivity.
Defined.

(** X16.  On a built index, with a sorting routine that lists the
    positions in ascending order of score, [retriever_node] never
    raises: it stores exactly [min 3 n] documents for an index of [n]
    chunks, best score first, each being the file name, [::chunk_] and
    the ordinal, then the chunk's text, then its score, on three
    lines. *)
Theorem retriever_node_documents : forall w t st,
  sorts (np_argsort w) ->
  built (retriever w) ->
  exists results,
    retriever_node w t st = Some [RetrievedDocs (map (format_doc w) results)]
    /\ List.length (map (format_doc w) results)
       = Nat.min 3 (List.length (chunks (retriever w)))
    /\ StronglySorted (fun r1 r2 => (score r2 <= score r1)%Q) results
    /\ Forall (fun r => In (chunk r) (chunks (retriever w))) results
    /\ (forall r,
          format_doc w r
          = (source (chunk r) ++ "::chunk_" ++ Py.str_of_nat (chunk_id (chunk r))
             ++ LF ++ content (chunk r) ++ LF ++ str_score w (score r))%string).
Proof.
  intros w t st Hsort Hb.
  destruct (search_picked (np_argsort w) (retriever w) (question st) 3 Hsort Hb)
    as [results [Hs Hall]].
  exists results. unfold retriever_node. rewrite Hs.
  split; [reflexivity|]. split; [|split; [|split]].
  - rewrite length_map, <- (Forall2_length Hall), picked_length by (assumption || lia).
    rewrite built_scores_length by exact Hb. reflexivity.
  - eapply shows_scores_descend; [exact Hall | apply picked_descending; exact Hsort].
  - clear Hs. induction Hall as [|p r ps rs [_ Hc] Hall IH]; constructor.
    + eapply nth_error_In. exact Hc.
    + exact IH.
  - intros r. reflexivity.
Qed.

Lemma retriever_node_documents_witness :
  exists results,
    retriever_node (answering_world "RAG") 1 (after_classification "RAG")
    = Some [RetrievedDocs (map (format_doc (answering_world "RAG")) results)]
    /\ List.length (map (format_doc (answering_world "RAG")) results)
       = Nat.min 3 (List.length (chunks (retriever (answering_world "RAG"))))
    /\ StronglySorted (fun r1 r2 => (score r2 <= score r1)%Q) results
    /\ Forall (fun r => In (chunk r) (chunks (retriever (answering_world "RAG"))))
         results
    /\ (forall r,
          format_doc (answering_world "RAG") r
          = (source (chunk r) ++ "::chunk_" ++ Py.str_of_nat (chunk_id (chunk r))
             ++ LF ++ content (chunk r) ++ LF
             ++ str_score (answering_world "RAG") (score r))%string).
Proof.
  apply (retriever_node_documents (answering_world "RAG") 1
           (after_classification "RAG")).
  - exact insertion_argsort_sorts.
  - exact mammals_index_built.
Defined.

(* ================================================================= *)
(** * Further properties of the batch driver *)

Module BatchOrder.

Lemma run_batch_from_app :
  forall (Json : Type) (json_loads : string -> Loads Json) world
         questions more first f_out,
  run_batch_from Json json_loads world first (questions ++ more) f_out
  = match run_batch_from Json json_loads world first questions f_out with
    | (lines, Done) =>
        run_batch_from Json json_loads world (first + List.length questions)
          more lines
    | (lines, Raised at_index f) => (lines, Raised at_index f)
    end.
Proof.
  intros Json json_loads world questions more.
  induction questions as [|item rest IH]; intros first f_out; simpl.
  - rewrite Nat.add_0_r. reflexivity.
  - destruct (app_invoke (world first) (initial_state item)) as [final|];
      [|reflexivity].
    destruct (output_json Json json_loads first item final); [|reflexivity].
    rewrite IH. rewrite Nat.add_succ_r. reflexivity.
Qed.

End BatchOrder.

Import BatchOrder.

(** X17.  [run_batch] works record by record: the lines it writes for
    a batch begin with the lines it writes for any leading part of the
    batch, so records further down never change what was written
    before them.  When the leading part is done the remaining records
    are processed as a batch of their own, numbered on from there; when
    the loop body raises in the leading part, the longer batch ends at
    the same record with the same lines. *)
Theorem run_batch_prefix :
  forall (Json : Type) (json_loads : string -> Loads Json) world questions more,
  run_batch Json json_loads world (questions ++ more)
  = match run_batch Json json_loads world questions with
    | (lines, Done) =>
        run_batch_from Json json_loads world (List.length questions) more lines
    | (lines, Raised at_index f) => (lines, Raised at_index f)
    end
  /\ exists later,
       fst (run_batch Json json_loads world (questions ++ more))
       = fst (run_batch Json json_loads world questions) ++ later.
Proof.
  intros Json json_loads world questions more.
  assert (E := run_batch_from_app Json json_loads world questions more 0 []).
  split; [exact E|].
  unfold run_batch. rewrite E.
  destruct (run_batch_from Json json_loads world 0 questions [])
    as [lines ending].
  destruct ending as [|at_index f].
  - destruct (run_batch_from Json json_loads world (0 + List.length questions)
                more lines) as [lines' ending'] eqn:E'.
    apply run_batch_from_spec in E'. destruct E' as [new [-> _]].
    exists new. reflexivity.
  - exists []. rewrite app_nil_r. reflexivity.
Qed.

